(** * Configurator: footer templates, version detection and load handlers

    Shallow embedding of the logic of
    - [src/components/internal/ConfiguratorPage.tsx]
      ([onFormSubmit], [onLoadEnv], [onLoadConfig]),
    - [src/lib/utils.ts] ([formatFooterContent]),
    - [src/components/internal/ConfiguratorPage.Site.tsx]
      (site-name preview, [NavbarItemsField]),
    together with the JavaScript built-ins these functions call. *)

From Stdlib Require Import ZArith NArith List Bool Ascii String Lia.
From Stdlib Require Import DecimalString.
Import ListNotations.

Set Implicit Arguments.

(* ================================================================== *)
(** ** JavaScript built-ins used by the sources *)
(* ================================================================== *)

Module JS.

(** A JavaScript string is a sequence of UTF-16 code units. *)
Definition char := N.
Definition jsstring := list char.

(** ASCII literals. *)
Definition lit (s : string) : jsstring :=
  map N_of_ascii (list_ascii_of_string s).

Definition NL : char := 10%N.      (* the line feed of "\n" *)
Definition DQUOTE : char := 34%N.  (* the double quote *)
Definition SQUOTE : char := 39%N.  (* the single quote *)

Fixpoint eqb (a b : jsstring) : bool :=
  match a, b with
  | [], [] => true
  | x :: a', y :: b' => N.eqb x y && eqb a' b'
  | _, _ => false
  end.

(** [a ?? b] on a value that may be [undefined]. *)
Definition nullish {A} (o : option A) (d : A) : A :=
  match o with Some v => v | None => d end.

(** *** Character classes of regular expressions (no [u] or [i] flag) *)

Definition between (lo hi c : N) : bool := N.leb lo c && N.leb c hi.

(** [\d] *)
Definition isDigit (c : char) : bool := between 48 57 c.

(** [\w] : [A-Za-z0-9_] *)
Definition isWord (c : char) : bool :=
  between 97 122 c || between 65 90 c || between 48 57 c || N.eqb c 95.

(** [\s] : WhiteSpace and LineTerminator code points; the same set is
    stripped by [String.prototype.trim]. *)
Definition isSpace (c : char) : bool :=
  between 9 13 c || N.eqb c 32 || N.eqb c 160 || N.eqb c 5760
  || between 8192 8202 c || N.eqb c 8232 || N.eqb c 8233
  || N.eqb c 8239 || N.eqb c 8287 || N.eqb c 12288 || N.eqb c 65279.

Definition isQuote (c : char) : bool := N.eqb c DQUOTE || N.eqb c SQUOTE.

(** *** String.prototype.trim, Array.prototype.join *)

Fixpoint trimStart (s : jsstring) : jsstring :=
  match s with
  | c :: s' => if isSpace c then trimStart s' else s
  | [] => []
  end.

Definition trimEnd (s : jsstring) : jsstring := rev (trimStart (rev s)).

Definition trim (s : jsstring) : jsstring := trimEnd (trimStart s).

Fixpoint join (sep : jsstring) (l : list jsstring) : jsstring :=
  match l with
  | [] => []
  | [x] => x
  | x :: l' => x ++ sep ++ join sep l'
  end.

(** *** Number to string, for integers of magnitude below 10^21
    (every year and every time value is). *)
Definition numberToString (z : Z) : jsstring :=
  lit (NilZero.string_of_int (Z.to_int z)).

(** *** Backtracking matcher combinators

    Each combinator takes the continuation that matches the rest of the
    pattern; a greedy quantifier tries the longest run first and gives
    characters back when the continuation fails, as the ECMAScript
    matcher does. *)

Section Matcher.
Variable R : Type.

(** a literal piece of pattern *)
Fixpoint litC (l : jsstring) (k : jsstring -> option R) (s : jsstring)
  : option R :=
  match l with
  | [] => k s
  | c :: l' =>
      match s with
      | d :: s' => if N.eqb c d then litC l' k s' else None
      | [] => None
      end
  end.

(** [p*], greedy; the continuation receives the run that was matched *)
Fixpoint starC (p : char -> bool) (k : jsstring -> jsstring -> option R)
  (s : jsstring) : option R :=
  match s with
  | c :: s' =>
      if p c then
        match starC p (fun w => k (c :: w)) s' with
        | Some r => Some r
        | None => k [] s
        end
      else k [] s
  | [] => k [] []
  end.

(** [p+], greedy *)
Definition plusC (p : char -> bool) (k : jsstring -> jsstring -> option R)
  (s : jsstring) : option R :=
  match s with
  | c :: s' => if p c then starC p (fun w => k (c :: w)) s' else None
  | [] => None
  end.

(** [p?], greedy *)
Definition optC (p : char -> bool) (k : jsstring -> option R)
  (s : jsstring) : option R :=
  match s with
  | c :: s' =>
      if p c then
        match k s' with
        | Some r => Some r
        | None => k s
        end
      else k s
  | [] => k []
  end.
(** [RegExp.prototype.exec] without the [g] flag: the match at the
    leftmost start position that has one. *)
Fixpoint exec (m : jsstring -> option R) (s : jsstring) : option R :=
  match m s with
  | Some r => Some r
  | None =>
      match s with
      | [] => None
      | _ :: s' => exec m s'
      end
  end.
End Matcher.

(** [String.prototype.replace] with a [g] pattern [m] that has one capture
    group and never matches the empty string, and a replacer function [f]
    of the captured text.  [skip] counts the characters that lie before
    [lastIndex], those the previous match consumed. *)
Fixpoint replaceFrom (m : jsstring -> option (jsstring * jsstring))
  (f : jsstring -> jsstring) (skip : nat) (s : jsstring) : jsstring :=
  match s with
  | [] => []
  | c :: s' =>
      match skip with
      | S n => replaceFrom m f n s'
      | O =>
          match m s with
          | Some (key, rest) =>
              f key ++ replaceFrom m f (List.length s' - List.length rest) s'
          | None => c :: replaceFrom m f 0 s'
          end
      end
  end.

Definition replaceAllMatches (m : jsstring -> option (jsstring * jsstring))
  (f : jsstring -> jsstring) (s : jsstring) : jsstring :=
  replaceFrom m f 0 s.

(** *** String.prototype.replace with a string pattern and a string
    replacement *)

(** [indexOf]: the text before and after the first occurrence. *)
Fixpoint stripPrefix (l s : jsstring) : option jsstring :=
  match l with
  | [] => Some s
  | c :: l' =>
      match s with
      | d :: s' => if N.eqb c d then stripPrefix l' s' else None
      | [] => None
      end
  end.

Fixpoint splitFirst (pat s : jsstring) : option (jsstring * jsstring) :=
  match stripPrefix pat s with
  | Some rest => Some ([], rest)
  | None =>
      match s with
      | [] => None
      | c :: s' =>
          match splitFirst pat s' with
          | Some (pre, post) => Some (c :: pre, post)
          | None => None
          end
      end
  end.

(** GetSubstitution without captures: [$$] is a dollar sign, [$&] the
    matched text, [$`] the text before the match, [$'] the text after it;
    any other [$] stands for itself. *)
Fixpoint GetSubstitution (matched pre post : jsstring) (tmpl : jsstring)
  : jsstring :=
  match tmpl with
  | [] => []
  | c :: t =>
      if N.eqb c 36 then
        match t with
        | d :: t' =>
            if N.eqb d 36 then 36%N :: GetSubstitution matched pre post t'
            else if N.eqb d 38 then matched ++ GetSubstitution matched pre post t'
            else if N.eqb d 96 then pre ++ GetSubstitution matched pre post t'
            else if N.eqb d 39 then post ++ GetSubstitution matched pre post t'
            else c :: GetSubstitution matched pre post t
        | [] => [c]
        end
      else c :: GetSubstitution matched pre post t
  end.

Definition replace (s pat repl : jsstring) : jsstring :=
  match splitFirst pat s with
  | Some (pre, post) => pre ++ GetSubstitution pat pre post repl ++ post
  | None => s
  end.

(** *** Date *)

Definition msPerDay : Z := 86400000.

(** Day number of the first day of year [y] (ECMAScript DayFromYear). *)
Definition DayFromYear (y : Z) : Z :=
  (365 * (y - 1970) + (y - 1969) / 4 - (y - 1901) / 100 + (y - 1601) / 400)%Z.

(** The largest [y] whose first day is not after [t], searched around the
    estimate given by the mean length of a Gregorian year. *)
Definition YearFromTime (t : Z) : Z :=
  let day := (t / msPerDay)%Z in
  let e := (1970 + day * 400 / 146097)%Z in
  if (DayFromYear (e + 1) <=? day)%Z then (e + 1)%Z
  else if (DayFromYear e <=? day)%Z then e
  else (e - 1)%Z.

(** The clock a page runs against: the time value of [Date.now()] and the
    offset of the local time zone, both in milliseconds. *)
Record Clock := { epochMillis : Z; localTZA : Z }.

(** [new Date().getFullYear()] *)
Definition getFullYear (c : Clock) : Z :=
  YearFromTime (epochMillis c + localTZA c).

(** *** Property lookup on an object literal

    A property read consults the object's own properties and then
    [Object.prototype]; the values met here are strings, the built-in
    methods of [Object.prototype], [Object.prototype] itself (what the
    [__proto__] accessor returns) and [undefined]. *)
Inductive value :=
| VString (s : jsstring)
| VFunction (name : jsstring)
| VObjectPrototype
| VUndefined.

Definition method (name : string) : jsstring * value :=
  (lit name, VFunction (lit name)).

(** The properties of [Object.prototype]; its [constructor] is the
    function [Object]. *)
Definition ObjectPrototype : list (jsstring * value) :=
  [ (lit "constructor", VFunction (lit "Object"));
    method "__defineGetter__"; method "__defineSetter__";
    method "hasOwnProperty"; method "__lookupGetter__";
    method "__lookupSetter__"; method "isPrototypeOf";
    method "propertyIsEnumerable"; method "toString"; method "valueOf";
    (lit "__proto__", VObjectPrototype);
    method "toLocaleString" ].

Fixpoint getOwn {V} (o : list (jsstring * V)) (key : jsstring)
  : option V :=
  match o with
  | [] => None
  | (k, v) :: o' => if eqb k key then Some v else getOwn o' key
  end.

Definition Get (o : list (jsstring * jsstring)) (key : jsstring) : value :=
  match getOwn o key with
  | Some v => VString v
  | None =>
      match getOwn ObjectPrototype key with
      | Some v => v
      | None => VUndefined
      end
  end.

(** [v ?? d] on a value *)
Definition nullishValue (v : value) (d : value) : value :=
  match v with VUndefined => d | _ => v end.

(** ToString; the text of a built-in function is the one V8 prints. *)
Definition ToString (v : value) : jsstring :=
  match v with
  | VString s => s
  | VFunction name => lit "function " ++ name ++ lit "() { [native code] }"
  | VObjectPrototype => lit "[object Object]"
  | VUndefined => lit "undefined"
  end.

End JS.

Import JS.

(* ================================================================== *)
(** ** types/schema and the [config] module *)
(* ================================================================== *)

Module Schema.

Record NavbarItem := {
  icon : jsstring; name : jsstring; href : jsstring; external : bool }.

Record Support := {
  currency : jsstring; support_name : jsstring; support_href : jsstring }.

Record FooterLine := { value : jsstring }.

Record Toaster := { position : jsstring; duration : Z }.

(** Modelled from the spec: the schema module (types/schema) is not among
    the sources; the fields are those the site form binds and the data
    model lists.  The fields read with [??] may be [undefined]. *)
Record Schema_Config_Site := {
  privateIndex : bool;
  guideButton : bool;
  siteName : option jsstring;
  siteNameTemplate : option jsstring;
  siteDescription : jsstring;
  siteAuthor : option jsstring;
  twitterHandle : option jsstring;
  robots : jsstring;
  breadcrumbMax : Z;
  toaster : Toaster;
  navbarItems : list NavbarItem;
  supports : list Support;
  footer : list FooterLine }.

(** Modelled from the spec: the [config] module is not among the sources;
    of it the formatter reads the running version and the site section. *)
Record Config := {
  version : option jsstring;
  siteConfig : Schema_Config_Site }.

End Schema.

Import Schema.

(* ================================================================== *)
(** ** lib/utils.ts *)
(* ================================================================== *)

Module Utils.

Definition repositoryUrl : jsstring :=
  lit "https://github.com/mbaharip/next-gdrive-index".

(** The object literal [formatMap], its properties in source order. *)
Definition formatMap (clock : Clock) (config : Config)
  (data : Schema_Config_Site) : list (jsstring * jsstring) :=
  [ (lit "year", numberToString (getFullYear clock));
    (lit "repository", lit "[Source Code](" ++ repositoryUrl ++ lit ")");
    (lit "poweredBy",
      lit "Powered by [next-gdrive-index v"
      ++ ToString (match version config with
                   | Some v => VString v
                   | None => VUndefined
                   end)
      ++ lit "](" ++ repositoryUrl ++ lit ")");
    (lit "author", nullish (siteAuthor data) (lit "mbaharip"));
    (lit "version", nullish (version config) (lit "0.0.0"));
    (lit "siteName", nullish (siteName data) (lit "next-gdrive-index"));
    (lit "handle", nullish (twitterHandle data) (lit "@__mbaharip__"));
    (lit "creator", lit "mbaharip") ].

(** The pattern [/{{\s*(\w+)\s*}}/] tried at the head of [s]: the captured
    key and the text after the match. *)
Definition token_at (s : jsstring) : option (jsstring * jsstring) :=
  litC (lit "{{")
    (starC isSpace (fun _ =>
       plusC isWord (fun key =>
         starC isSpace (fun _ =>
           litC (lit "}}") (fun rest => Some (key, rest)))))) s.

(** The replacer [(_, key) => formatMap[key] ?? ""], its result converted
    to a string by [replace]. *)
Definition replacer (fm : list (jsstring * jsstring)) (key : jsstring)
  : jsstring :=
  ToString (nullishValue (Get fm key) (VString [])).

Definition formatFooterContent (clock : Clock) (config : Config)
  (text : list FooterLine) (siteConfig : option Schema_Config_Site)
  : jsstring :=
  let data := nullish siteConfig (Schema.siteConfig config) in
  let formatMap := formatMap clock config data in
  replaceAllMatches token_at (replacer formatMap)
    (join [NL] (map (fun item => trim (value item)) text)).

(** [toUrlPath] *)

Record PathItem := { path : jsstring; path_id : jsstring }.

Definition isSlash (c : char) : bool := N.eqb c 47.

(** The pattern [/\/+/] tried at the head of [s]: the run of slashes that
    is matched and the text after it. *)
Definition slashes_at (s : jsstring) : option (jsstring * jsstring) :=
  plusC isSlash (fun matched rest => Some (matched, rest)) s.

(** [.replace(/\/+/g, "/")]; the replacement text has no dollar pattern. *)
Definition collapseSlashes (s : jsstring) : jsstring :=
  replaceAllMatches slashes_at (fun _ => lit "/") s.

(** [data.join("/").replace(/\/+/g, "/")] where [data] is ["/"] followed
    by the paths. *)
Definition toUrlPath (paths : list PathItem) : jsstring :=
  let data := lit "/" :: map path paths in
  collapseSlashes (join (lit "/") data).

(** [formatPathToBreadcrumb] *)

Record BreadcrumbPath := {
  bp_id : jsstring; bp_path : jsstring; bp_mimeType : jsstring }.

Record Breadcrumb := { bc_label : jsstring; bc_href : option jsstring }.

Inductive Thrown := URIError | FailedToParseBreadcrumb.

Inductive Outcome (A : Type) :=
| Returns (a : A)
| Throws (e : Thrown).
Arguments Throws {A} e.

Section Breadcrumbs.
(** [decodeURIComponent], which throws a URIError on a malformed escape,
    and the validation of [Schema_Breadcrumb.array()] (types/schema), which
    gives the parsed data when it accepts. *)
Variable decodeURIComponent : jsstring -> option jsstring.
Variable safeParse : list Breadcrumb -> option (list Breadcrumb).

(** [paths.map((item, index) => ...)] from position [index] on; [len] is
    [paths.length]. *)
Fixpoint breadcrumbFrom (len index : Z) (paths : list BreadcrumbPath)
  : option (list Breadcrumb) :=
  match paths with
  | [] => Some []
  | item :: rest =>
      let isLast := Z.eqb index (len - 1) in
      match decodeURIComponent (bp_path item) with
      | None => None
      | Some label =>
          match breadcrumbFrom len (index + 1) rest with
          | None => None
          | Some more =>
              Some ({| bc_label := label;
                       bc_href := if isLast then None
                                  else Some (bp_path item) |} :: more)
          end
      end
  end.

Definition formatPathToBreadcrumb (paths : list BreadcrumbPath)
  : Outcome (list Breadcrumb) :=
  match breadcrumbFrom (Z.of_nat (List.length paths)) 0 paths with
  | None => Throws URIError
  | Some breadcrumb =>
      match safeParse breadcrumb with
      | None => Throws FailedToParseBreadcrumb
      | Some data => Returns data
      end
  end.
End Breadcrumbs.

End Utils.

(* ================================================================== *)
(** ** components/internal/ConfiguratorPage.tsx *)
(* ================================================================== *)

Module ConfiguratorPage.

(** The result of the file picker. *)
Inductive PickFileResponse :=
| PickOk (data : jsstring)
| PickFail (message : jsstring) (details : list jsstring).

(** The result of awaiting a server action: the tagged record the handlers
    inspect, or a rejected promise, which makes the [await] throw. *)
Inductive ActionResponse (D : Type) :=
| ActionOk (message : jsstring) (data : D)
| ActionFail (message : jsstring) (error : jsstring)
| ActionRejected.
Arguments ActionFail {D} message error.
Arguments ActionRejected {D}.

(** The notification channel. *)
Inductive ToastKind := Loading | Error | Success.

Record Toast := {
  kind : ToastKind;
  message : jsstring;
  id : jsstring;
  description : option jsstring }.

(** The pattern [/version:\s*["']?(\d+\.\d+\.\d+)["']?/] tried at the head
    of [s]: the text of capture group 1. *)
Definition version_at (s : jsstring) : option jsstring :=
  litC (lit "version:")
    (starC isSpace (fun _ =>
       optC isQuote
         (plusC isDigit (fun major =>
            litC (lit ".")
              (plusC isDigit (fun minor =>
                 litC (lit ".")
                   (plusC isDigit (fun patch =>
                      optC isQuote (fun _ =>
                        Some (major ++ lit "." ++ minor ++ lit "." ++ patch)))))))))) s.

(** [/.../.exec(response.data)?.[1]] *)
Definition loadedVersion (data : jsstring) : option jsstring :=
  exec version_at data.

(** [!x] on a string that may be [undefined] *)
Definition falsy (x : option jsstring) : bool :=
  match x with
  | Some (_ :: _) => false
  | _ => true
  end.

(** [v.includes(x)] *)
Definition includes (v : list jsstring) (x : jsstring) : bool :=
  existsb (eqb x) v.

(** [Object.entries(versionExpectMap).find(([_, v]) => v.includes(x))?.[0]]
    where [entries] is the table in the order [Object.entries] lists it. *)
Definition versionGroup (entries : list (jsstring * list jsstring))
  (x : jsstring) : option jsstring :=
  option_map fst (find (fun e => includes (snd e) x) entries).

Section Page.
(** The [api] and [environment] sections and the archive are opaque. *)
Variables Api Environment Blob : Type.

(** The values of the form: the configuration document. *)
Record Document := {
  environment : Environment;
  api : Api;
  site : Schema_Config_Site }.

Record ProcessedConfiguration := {
  data_api : Api;
  data_site : Schema_Config_Site }.

(** The table [versionExpectMap] of lib/configurationHelper and the
    server actions of actions/configuration. *)
Variable versionExpectMap : list (jsstring * list jsstring).
Variable ProcessEnvironmentConfig : jsstring -> ActionResponse Environment.
Variable ProcessConfiguration :
  jsstring -> jsstring -> ActionResponse ProcessedConfiguration.
Variable GenerateConfiguration : Document -> ActionResponse Blob.

(** The state the handlers act on. *)
Record Page := {
  form : Document;
  isLoadingEnv : bool;
  isLoadingConfig : bool;
  toasts : list Toast;                (* oldest first *)
  downloads : list (jsstring * Blob)  (* file name and content *) }.

Definition toast (k : ToastKind) (msg id : jsstring)
  (descr : option jsstring) (p : Page) : Page :=
  {| form := form p;
     isLoadingEnv := isLoadingEnv p;
     isLoadingConfig := isLoadingConfig p;
     toasts := toasts p
               ++ [ {| kind := k; message := msg; id := id;
                       description := descr |} ];
     downloads := downloads p |}.

Definition setIsLoadingEnv (b : bool) (p : Page) : Page :=
  {| form := form p;
     isLoadingEnv := b;
     isLoadingConfig := isLoadingConfig p;
     toasts := toasts p;
     downloads := downloads p |}.

Definition setIsLoadingConfig (b : bool) (p : Page) : Page :=
  {| form := form p;
     isLoadingEnv := isLoadingEnv p;
     isLoadingConfig := b;
     toasts := toasts p;
     downloads := downloads p |}.

Definition click_download (file : jsstring) (content : Blob) (p : Page)
  : Page :=
  {| form := form p;
     isLoadingEnv := isLoadingEnv p;
     isLoadingConfig := isLoadingConfig p;
     toasts := toasts p;
     downloads := downloads p ++ [(file, content)] |}.

(** [form.setValue(path, value)] for the paths the handlers write. *)
Inductive FieldValue :=
| F_environment (v : Environment)
| F_api (v : Api)
| F_site (v : Schema_Config_Site)
| F_site_navbarItems (v : list NavbarItem)
| F_site_supports (v : list Support)
| F_site_footer (v : list FooterLine).

Definition with_lists (s : Schema_Config_Site) (n : list NavbarItem)
  (su : list Support) (f : list FooterLine) : Schema_Config_Site :=
  {| privateIndex := privateIndex s;
     guideButton := guideButton s;
     siteName := siteName s;
     siteNameTemplate := siteNameTemplate s;
     siteDescription := siteDescription s;
     siteAuthor := siteAuthor s;
     twitterHandle := twitterHandle s;
     robots := robots s;
     breadcrumbMax := breadcrumbMax s;
     toaster := toaster s;
     navbarItems := n;
     supports := su;
     footer := f |}.

Definition setValueDoc (fv : FieldValue) (d : Document) : Document :=
  match fv with
  | F_environment v =>
      {| environment := v; api := api d; site := site d |}
  | F_api v =>
      {| environment := environment d; api := v; site := site d |}
  | F_site v =>
      {| environment := environment d; api := api d; site := v |}
  | F_site_navbarItems v =>
      {| environment := environment d; api := api d;
         site := with_lists (site d) v (supports (site d))
                   (footer (site d)) |}
  | F_site_supports v =>
      {| environment := environment d; api := api d;
         site := with_lists (site d) (navbarItems (site d)) v
                   (footer (site d)) |}
  | F_site_footer v =>
      {| environment := environment d; api := api d;
         site := with_lists (site d) (navbarItems (site d))
                   (supports (site d)) v |}
  end.

Definition setValue (fv : FieldValue) (p : Page) : Page :=
  {| form := setValueDoc fv (form p);
     isLoadingEnv := isLoadingEnv p;
     isLoadingConfig := isLoadingConfig p;
     toasts := toasts p;
     downloads := downloads p |}.

(** The description of a failed file pick: the details joined by line
    feeds, or [undefined] when there are none. *)
Definition pickDescription (details : list jsstring) : option jsstring :=
  match details with
  | [] => None
  | _ => Some (join [NL] details)
  end.

(** [onFormSubmit]; [t0] and [t1] are the two readings of [Date.now()]. *)
Definition onFormSubmit (t0 t1 : Z) (values : Document) (p : Page) : Page :=
  let id := lit "download-" ++ numberToString t0 in
  let p := toast Loading (lit "Generating configuration...") id None p in
  match GenerateConfiguration values with
  | ActionRejected => p
  | ActionFail message error => toast Error message id (Some error) p
  | ActionOk _ zip =>
      let p := click_download
                 (numberToString t1 ++ lit "-gIndex.config.zip") zip p in
      toast Success (lit "Configuration generated") id None p
  end.

(** [onLoadEnv]; [now] is the reading of [Date.now()]. *)
Definition onLoadEnv (now : Z) (response : PickFileResponse) (p : Page)
  : Page :=
  let id := lit "env-latest-" ++ numberToString now in
  let p := toast Loading (lit "Waiting for file...") id None p in
  match response with
  | PickFail message details =>
      let p := toast Error message id (pickDescription details) p in
      setIsLoadingEnv false p
  | PickOk data =>
      let p := toast Loading (lit "Processing environment file...") id
                 None p in
      match ProcessEnvironmentConfig data with
      | ActionRejected => p
      | ActionFail message error =>
          let p := toast Error message id (Some error) p in
          setIsLoadingEnv false p
      | ActionOk message data =>
          let p := setValue (F_environment data) p in
          let p := toast Success message id None p in
          setIsLoadingEnv false p
      end
  end.

(** [onLoadConfig]; [now] is the reading of [Date.now()]. *)
Definition onLoadConfig (now : Z) (response : PickFileResponse) (p : Page)
  : Page :=
  let id := lit "config-" ++ numberToString now in
  let p := toast Loading (lit "Waiting for file...") id None p in
  match response with
  | PickFail message details =>
      let p := toast Error message id (pickDescription details) p in
      setIsLoadingConfig false p
  | PickOk data =>
      let loaded := loadedVersion data in
      if falsy loaded then
        let p := toast Error
                   (lit "Version not found in configuration file") id
                   None p in
        setIsLoadingConfig false p
      else
        let loaded := nullish loaded [] in
        let group := versionGroup versionExpectMap loaded in
        if falsy group then
          let p := toast Error (lit "Version not recognized") id
                     (Some (lit "Loaded version: " ++ loaded
                            ++ lit ", not matching any known version"))
                     p in
          setIsLoadingConfig false p
        else
          let group := nullish group [] in
          let p := toast Loading
                     (lit "Version " ++ loaded
                      ++ lit " detected, processing...") id None p in
          match ProcessConfiguration data group with
          | ActionRejected => p
          | ActionFail message error =>
              let p := toast Error message id (Some error) p in
              setIsLoadingConfig false p
          | ActionOk message data =>
              let p := setValue (F_api (data_api data)) p in
              let p := setValue (F_site (data_site data)) p in
              let p := setValue
                         (F_site_navbarItems
                            (navbarItems (data_site data))) p in
              let p := setValue
                         (F_site_supports (supports (data_site data))) p in
              let p := setValue
                         (F_site_footer (footer (data_site data))) p in
              let p := toast Success message id None p in
              setIsLoadingConfig false p
          end
  end.

(** The default values of the form, [initialConfiguration] of
    lib/configurationHelper. *)
Variable initialConfiguration : Document.

(** The paths [form.resetField] is called with here: the three categories
    and the three lists of the site section. *)
Inductive FieldPath :=
| Path_environment
| Path_api
| Path_site
| Path_site_navbarItems
| Path_site_supports
| Path_site_footer.

(** [form.resetField(path)]: the field takes its default value again. *)
Definition resetField (path : FieldPath) (p : Page) : Page :=
  let d := initialConfiguration in
  match path with
  | Path_environment => setValue (F_environment (environment d)) p
  | Path_api => setValue (F_api (api d)) p
  | Path_site => setValue (F_site (site d)) p
  | Path_site_navbarItems =>
      setValue (F_site_navbarItems (navbarItems (site d))) p
  | Path_site_supports => setValue (F_site_supports (supports (site d))) p
  | Path_site_footer => setValue (F_site_footer (footer (site d))) p
  end.

(** [form.reset(initialConfiguration)] *)
Definition reset (p : Page) : Page :=
  {| form := initialConfiguration;
     isLoadingEnv := isLoadingEnv p;
     isLoadingConfig := isLoadingConfig p;
     toasts := toasts p;
     downloads := downloads p |}.

Inductive ConfigurationCategory :=
| Category_environment
| Category_api
| Category_site.

Definition categoryPath (c : ConfigurationCategory) : FieldPath :=
  match c with
  | Category_environment => Path_environment
  | Category_api => Path_api
  | Category_site => Path_site
  end.

(** [onReset]; [None] is the category "all", and [toastId] the id the
    notification library gives a notification sent without one. *)
Definition onReset (toastId : jsstring)
  (category : option ConfigurationCategory) (p : Page) : Page :=
  let p := match category with
           | None => reset p
           | Some c => resetField (categoryPath c) p
           end in
  toast Success (lit "Form reverted to initial state") toastId None p.

(** A load has succeeded when the last notification is a success. *)
Definition succeeded (p : Page) : bool :=
  match rev (toasts p) with
  | t :: _ => match kind t with Success => true | _ => false end
  | [] => false
  end.

End Page.

(** The pattern [/\s/] tried at the head of [s]. *)
Definition space_at (s : jsstring) : option (jsstring * jsstring) :=
  match s with
  | c :: rest => if isSpace c then Some ([c], rest) else None
  | [] => None
  end.

Section FormSection.
(** [String.prototype.toLowerCase], whose case mapping is left open. *)
Variable toLowerCase : jsstring -> jsstring.

(** The anchor id of [FormSection]:
    [title.toLowerCase().replace(/\s/g, "-")]. *)
Definition formSectionId (title : jsstring) : jsstring :=
  replaceAllMatches space_at (fun _ => lit "-") (toLowerCase title).
End FormSection.

End ConfiguratorPage.

(* ================================================================== *)
(** ** components/internal/ConfiguratorPage.Site.tsx *)
(* ================================================================== *)

Module SiteForm.

(** The live preview of the site name template. *)
Definition siteNamePreview (siteNameTemplate siteName : option jsstring)
  : jsstring :=
  replace
    (replace (nullish siteNameTemplate (lit "No template")) (lit "%t")
       (nullish siteName (lit "Apunte UDA")))
    (lit "%s") (lit "Page Title Goes Here").

(** [useFieldArray]: [append(x)] puts [x] after the last element and
    [remove(index)] splices one element out at [index]. *)
Definition append {A} (fields : list A) (x : A) : list A := fields ++ [x].

Definition remove {A} (fields : list A) (index : nat) : list A :=
  firstn index fields ++ skipn (S index) fields.

(** The item the "Add Item" button of [NavbarItemsField] appends. *)
Definition newNavbarItem : NavbarItem :=
  {| icon := lit "Link"; name := lit "New Item"; href := lit "/new-item";
     external := false |}.

(** The items the "Add Item" buttons of [SupportsField] and [FooterField]
    append. *)
Definition newSupport : Support :=
  {| currency := lit "USD"; support_name := lit "Paypal";
     support_href := lit "https://paypal.me/acme" |}.

Definition newFooterLine : FooterLine := {| value := [] |}.

(** The codes of the template guide of [FooterField], in source order, and
    the token the guide prints for a code. *)
Definition templates : list jsstring :=
  map lit [ "version"; "poweredBy"; "year"; "repository"; "creator";
            "author"; "siteName"; "handle" ]%string.

Definition templateToken (code : jsstring) : jsstring :=
  lit "{{ " ++ code ++ lit " }}".

End SiteForm.

(* ================================================================== *)
(** ** What the specification asks, in its own words *)
(* ================================================================== *)

Module Spec.

Definition all (p : char -> bool) (w : jsstring) : Prop :=
  forallb p w = true.

(** [x] does not start with a character of class [p]. *)
Definition stops (p : char -> bool) (x : jsstring) : Prop :=
  forall c t, x = c :: t -> p c = false.

(** [s] has no dollar sign. *)
Definition noDollar (s : jsstring) : Prop :=
  forallb (fun c => negb (N.eqb c 36)) s = true.

(** [t] is [raw] without its leading and trailing white space. *)
Definition Trimmed (raw t : jsstring) : Prop :=
  exists l r,
    raw = l ++ t ++ r /\ all isSpace l /\ all isSpace r
    /\ (forall c t', t = c :: t' -> isSpace c = false)
    /\ (forall c t', t = t' ++ [c] -> isSpace c = false).

(** [s] starts with a token [{{ key }}] and [rest] follows it. *)
Definition Token (key s rest : jsstring) : Prop :=
  exists ws1 ws2,
    s = lit "{{" ++ ws1 ++ key ++ ws2 ++ lit "}}" ++ rest
    /\ all isSpace ws1 /\ all isSpace ws2
    /\ key <> [] /\ all isWord key.

(** [out] is [s] with every token, met from left to right, replaced by the
    table's value of its key and every other character kept. *)
Inductive Rendered (table : jsstring -> jsstring)
  : jsstring -> jsstring -> Prop :=
| Rendered_end : Rendered table [] []
| Rendered_token key s rest out :
    Token key s rest -> Rendered table rest out ->
    Rendered table s (table key ++ out)
| Rendered_char c s out :
    (forall key rest, ~ Token key (c :: s) rest) ->
    Rendered table s out ->
    Rendered table (c :: s) (c :: out).

(** A semantic-version literal: three runs of digits joined by dots. *)
Definition SemVer (v : jsstring) : Prop :=
  exists a b c,
    v = a ++ lit "." ++ b ++ lit "." ++ c
    /\ a <> [] /\ b <> [] /\ c <> []
    /\ all isDigit a /\ all isDigit b /\ all isDigit c.

(** After [pre], [text] has a [version:] assignment of the literal [v],
    optionally quoted; [v] takes all the digits there are. *)
Definition VersionAssignment (text pre v : jsstring) : Prop :=
  exists ws q rest,
    text = pre ++ lit "version:" ++ ws ++ q ++ v ++ rest
    /\ all isSpace ws
    /\ (q = [] \/ q = [DQUOTE] \/ q = [SQUOTE])
    /\ SemVer v
    /\ (forall d rest', rest = d :: rest' -> isDigit d = false).

(** Literal replacement of the first occurrence of [pat] in [s]. *)
Definition replaceFirstLiteral (s pat repl : jsstring) : jsstring :=
  match splitFirst pat s with
  | Some (pre, post) => pre ++ repl ++ post
  | None => s
  end.

(** A file name of the form [<unix-timestamp>-config.zip]. *)
Definition TimestampConfigZip (file : jsstring) : Prop :=
  exists stamp,
    stamp <> [] /\ all isDigit stamp /\ file = stamp ++ lit "-config.zip".

(** A version is ambiguous when two entries of the table list it. *)
Definition Ambiguous (entries : list (jsstring * list jsstring))
  (x : jsstring) : Prop :=
  exists i j e1 e2,
    i <> j /\ nth_error entries i = Some e1 /\ nth_error entries j = Some e2
    /\ fst e1 <> fst e2
    /\ ConfiguratorPage.includes (snd e1) x = true
    /\ ConfiguratorPage.includes (snd e2) x = true.

Section Loads.
Import ConfiguratorPage.
Variables Api Environment : Type.
Variable versionExpectMap : list (jsstring * list jsstring).
Variable ProcessEnvironmentConfig : jsstring -> ActionResponse Environment.
Variable ProcessConfiguration :
  jsstring -> jsstring -> ActionResponse (ProcessedConfiguration Api).

(** The stages at which an environment load fails. *)
Inductive EnvLoadFails : PickFileResponse -> Prop :=
| Env_FilePickError message details :
    EnvLoadFails (PickFail message details)
| Env_ProcessingError data :
    (forall message out,
        ProcessEnvironmentConfig data <> ActionOk message out) ->
    EnvLoadFails (PickOk data).

(** The stages at which a configuration load fails. *)
Inductive ConfigLoadFails : PickFileResponse -> Prop :=
| Config_FilePickError message details :
    ConfigLoadFails (PickFail message details)
| Config_VersionNotFound data :
    loadedVersion data = None ->
    ConfigLoadFails (PickOk data)
| Config_VersionUnrecognized data v :
    loadedVersion data = Some v ->
    versionGroup versionExpectMap v = None ->
    ConfigLoadFails (PickOk data)
| Config_ProcessingError data v group :
    loadedVersion data = Some v ->
    versionGroup versionExpectMap v = Some group ->
    (forall message out,
        ProcessConfiguration data group <> ActionOk message out) ->
    ConfigLoadFails (PickOk data).
End Loads.

End Spec.

Import Spec.

(* ================================================================== *)
(** ** Shapes of text used to state further properties *)
(* ================================================================== *)

Module Shapes.

(** [s] has no opening brace. *)
Definition noBrace (s : jsstring) : Prop :=
  forallb (fun c => negb (N.eqb c 123)) s = true.

(** [s] has no slash. *)
Definition noSlash (s : jsstring) : Prop :=
  forallb (fun c => negb (Utils.isSlash c)) s = true.

Definition notSlash (c : char) : bool := negb (Utils.isSlash c).

(** [s] has no two slashes in a row. *)
Definition NoDoubleSlash (s : jsstring) : Prop :=
  forall a b, s <> a ++ lit "//" ++ b.

(** [pat] does not occur in [s]. *)
Definition Absent (pat s : jsstring) : Prop :=
  forall a b, s <> a ++ pat ++ b.

(** The footer line [a] is the line [b] with white space added at its
    ends. *)
Definition Padded (a b : FooterLine) : Prop :=
  exists l r,
    value a = l ++ value b ++ r /\ Spec.all isSpace l /\ Spec.all isSpace r.

(** What an operation adds to the notifications of a page: at least one,
    all with the id of the operation. *)
Definition Notifies {Api Environment Blob : Type} (opId : jsstring)
  (p p' : ConfiguratorPage.Page Api Environment Blob) : Prop :=
  exists new,
    ConfiguratorPage.toasts p' = ConfiguratorPage.toasts p ++ new
    /\ new <> []
    /\ Forall (fun t => ConfiguratorPage.id t = opId) new.

(** The section of category [c] of the document [d] has its default
    value. *)
Definition SectionIsDefault {Api Environment : Type}
  (initial d : ConfiguratorPage.Document Api Environment)
  (c : ConfiguratorPage.ConfigurationCategory) : Prop :=
  match c with
  | ConfiguratorPage.Category_environment =>
      ConfiguratorPage.environment d = ConfiguratorPage.environment initial
  | ConfiguratorPage.Category_api =>
      ConfiguratorPage.api d = ConfiguratorPage.api initial
  | ConfiguratorPage.Category_site =>
      ConfiguratorPage.site d = ConfiguratorPage.site initial
  end.

(** The text the anchor id has for a character of the title. *)
Definition hyphenate (c : char) : char := if isSpace c then 45%N else c.

End Shapes.

Import Shapes.

(* ================================================================== *)
(** ** Concrete inputs used by the examples *)
(* ================================================================== *)

Module Samples.
Import ConfiguratorPage.

Definition site0 : Schema_Config_Site :=
  {| privateIndex := false;
     guideButton := false;
     siteName := Some (lit "Apunte UDA");
     siteNameTemplate := Some (lit "%s - %t");
     siteDescription := lit "A simple file browser";
     siteAuthor := None;
     twitterHandle := None;
     robots := lit "noindex, nofollow";
     breadcrumbMax := 3;
     toaster := {| position := lit "top-right"; duration := 5000 |};
     navbarItems := [];
     supports := [];
     footer := [ {| value := lit "{{ poweredBy }}" |} ] |}.

Definition site1 : Schema_Config_Site :=
  {| privateIndex := true;
     guideButton := true;
     siteName := Some (lit "Loaded");
     siteNameTemplate := Some (lit "%t | %s");
     siteDescription := lit "Loaded from a file";
     siteAuthor := Some (lit "someone");
     twitterHandle := None;
     robots := lit "index";
     breadcrumbMax := 5;
     toaster := {| position := lit "bottom-left"; duration := 3000 |};
     navbarItems := [ SiteForm.newNavbarItem ];
     supports := [];
     footer := [ {| value := lit "{{ year }}" |} ] |}.

Definition config0 : Config :=
  {| version := Some (lit "2.0.4"); siteConfig := site0 |}.

(** 2024-06-10T06:13:20Z and 2025-01-01T00:00:00Z, local time UTC. *)
Definition june2024 : Clock :=
  {| epochMillis := 1718000000000; localTZA := 0 |}.
Definition january2024 : Clock :=
  {| epochMillis := 1704067200000; localTZA := 0 |}.
Definition january2025 : Clock :=
  {| epochMillis := 1735689600000; localTZA := 0 |}.

Definition builtByLines : list FooterLine :=
  [ {| value := lit "Built by {{ creator }}" |};
    {| value := lit "{{ year }}" |} ].

(** The page of a session whose three sections are texts. *)
Definition doc0 : Document jsstring jsstring :=
  {| environment := lit "KEY=old"; api := lit "api-old"; site := site0 |}.

Definition page0 : Page jsstring jsstring jsstring :=
  {| form := doc0; isLoadingEnv := true; isLoadingConfig := true;
     toasts := []; downloads := [] |}.

(** A table in which version 1.2.0 is listed by two groups. *)
Definition overlappingTable : list (jsstring * list jsstring) :=
  [ (lit "v1", [lit "1.0.0"; lit "1.2.0"]);
    (lit "v2", [lit "1.2.0"; lit "2.0.0"]) ].

Definition table0 : list (jsstring * list jsstring) :=
  [ (lit "v1", [lit "1.0.0"; lit "1.2.0"]);
    (lit "v2", [lit "2.0.0"]);
    (lit "latest", [lit "2.0.4"]) ].

(** A configuration file that declares version 1.2.0, double-quoted. *)
Definition configText : jsstring :=
  lit "const config = { version: " ++ [DQUOTE] ++ lit "1.2.0" ++ [DQUOTE]
  ++ lit ", basePath: process.env.BASE }".

(** Server actions that accept, or refuse, whatever they are given. *)
Definition acceptEnv (data : jsstring) : ActionResponse jsstring :=
  ActionOk (lit "Environment loaded") data.

Definition acceptConfig (data group : jsstring)
  : ActionResponse (ProcessedConfiguration jsstring) :=
  ActionOk (lit "Configuration loaded")
    {| data_api := lit "api-" ++ group; data_site := site1 |}.

Definition refuseConfig (data group : jsstring)
  : ActionResponse (ProcessedConfiguration jsstring) :=
  ActionFail (lit "Failed to process") (lit "bad field").

Definition acceptGenerate (values : Document jsstring jsstring)
  : ActionResponse jsstring :=
  ActionOk (lit "done") (lit "zip-bytes").

End Samples.

Module MoreSamples.
Import ConfiguratorPage Utils.

Definition folderPaths : list PathItem :=
  [ {| path := lit "docs"; path_id := lit "1" |};
    {| path := lit "2024"; path_id := lit "2" |} ].

Definition crumbPaths : list BreadcrumbPath :=
  [ {| bp_id := lit "1"; bp_path := lit "docs";
       bp_mimeType := lit "folder" |};
    {| bp_id := lit "2"; bp_path := lit "a%20b"; bp_mimeType := lit "text" |} ].

(** A decoder that knows one escape, and a validation that accepts. *)
Definition decodeSample (s : jsstring) : option jsstring :=
  if JS.eqb s (lit "a%20b") then Some (lit "a b")
  else if JS.eqb s (lit "%") then None
  else Some s.

Definition acceptAll (l : list Breadcrumb) : option (list Breadcrumb) :=
  Some l.

Definition rejectConfig (data group : jsstring)
  : ActionResponse (ProcessedConfiguration jsstring) :=
  ActionRejected.

Definition refuseGenerate (values : Document jsstring jsstring)
  : ActionResponse jsstring :=
  ActionFail (lit "Failed to generate") (lit "invalid").

(** Lower case for the letters A to Z. *)
Definition asciiLower (s : jsstring) : jsstring :=
  map (fun c => if between 65 90 c then (c + 32)%N else c) s.

Definition threeLines : list FooterLine :=
  [ {| value := lit "one" |}; {| value := lit "two" |};
    {| value := lit "three" |} ].

Definition initial0 : Document jsstring jsstring :=
  {| environment := lit "KEY=default"; api := lit "api-default";
     site := Samples.site0 |}.

End MoreSamples.

(* ================================================================== *)
(** ** Facts about the built-ins *)
(* ================================================================== *)

Section MatcherFacts.
Variable R : Type.
Implicit Types (k : jsstring -> option R) (s w rest : jsstring).

Lemma litC_app l k rest : litC l k (l ++ rest) = k rest.
Proof.
  induction l as [|c l IH]; simpl; [reflexivity|].
  now rewrite N.eqb_refl.
Qed.

Lemma litC_sound l k s r :
  litC l k s = Some r -> exists rest, s = l ++ rest /\ k rest = Some r.
Proof.
  revert s; induction l as [|c l IH]; simpl; intros s H.
  - now exists s.
  - destruct s as [|d s]; [discriminate|].
    destruct (N.eqb_spec c d) as [->|]; [|discriminate].
    destruct (IH _ H) as (rest & -> & Hk). now exists rest.
Qed.

Lemma starC_sound p (k : jsstring -> jsstring -> option R) s r :
  starC p k s = Some r ->
  exists w rest, s = w ++ rest /\ all p w /\ k w rest = Some r.
Proof.
  revert k; induction s as [|c s IH]; simpl; intros k H.
  - now exists [], [].
  - destruct (p c) eqn:Hp.
    + destruct (starC p (fun w => k (c :: w)) s) eqn:Hin.
      * injection H as ->.
        destruct (IH _ Hin) as (w & rest & -> & Hw & Hk).
        exists (c :: w), rest. repeat split; trivial.
        unfold all; simpl. now rewrite Hp.
      * now exists [], (c :: s).
    + now exists [], (c :: s).
Qed.

Lemma starC_complete p (k : jsstring -> jsstring -> option R) w rest :
  all p w -> k w rest <> None -> starC p k (w ++ rest) <> None.
Proof.
  revert k; induction w as [|c w IH]; intros k Hw Hk.
  - simpl. destruct rest as [|c s]; simpl; trivial.
    destruct (p c); trivial.
    destruct (starC p (fun w => k (c :: w)) s); [discriminate|trivial].
  - unfold all in Hw; simpl in Hw. apply andb_prop in Hw as [Hc Hw].
    simpl. rewrite Hc.
    specialize (IH (fun w => k (c :: w)) Hw Hk).
    destruct (starC p (fun w0 => k (c :: w0)) (w ++ rest));
      [discriminate|contradiction].
Qed.

(** When the continuation cannot fail, the star takes the whole run. *)
Lemma starC_greedy p (k : jsstring -> jsstring -> option R) s r :
  (forall w rest, k w rest <> None) ->
  starC p k s = Some r ->
  exists w rest, s = w ++ rest /\ all p w /\ k w rest = Some r
                 /\ (forall d rest', rest = d :: rest' -> p d = false).
Proof.
  revert k; induction s as [|c s IH]; simpl; intros k Hk H.
  - exists [], []. repeat split; trivial. discriminate.
  - destruct (p c) eqn:Hp.
    + destruct (starC p (fun w => k (c :: w)) s) eqn:Hin.
      * injection H as ->.
        destruct (IH (fun w => k (c :: w)) (fun w => Hk (c :: w)) Hin)
          as (w & rest & -> & Hw & Hkw & Hmax).
        exists (c :: w), rest. repeat split; trivial.
        unfold all; simpl. now rewrite Hp.
      * exfalso.
        apply (@starC_complete p (fun w => k (c :: w)) [] s);
          [reflexivity|apply Hk|exact Hin].
    + exists [], (c :: s). repeat split; trivial.
      intros d rest' [= <- <-]. exact Hp.
Qed.

Lemma plusC_sound p (k : jsstring -> jsstring -> option R) s r :
  plusC p k s = Some r ->
  exists w rest, s = w ++ rest /\ w <> [] /\ all p w /\ k w rest = Some r.
Proof.
  destruct s as [|c s]; simpl; [discriminate|].
  destruct (p c) eqn:Hp; [|discriminate]. intros H.
  destruct (starC_sound _ _ _ H) as (w & rest & -> & Hw & Hk).
  exists (c :: w), rest. repeat split; trivial; [discriminate|].
  unfold all; simpl. now rewrite Hp.
Qed.

Lemma plusC_greedy p (k : jsstring -> jsstring -> option R) s r :
  (forall w rest, k w rest <> None) ->
  plusC p k s = Some r ->
  exists w rest, s = w ++ rest /\ w <> [] /\ all p w /\ k w rest = Some r
                 /\ (forall d rest', rest = d :: rest' -> p d = false).
Proof.
  intros Hk. destruct s as [|c s]; simpl; [discriminate|].
  destruct (p c) eqn:Hp; [|discriminate]. intros H.
  destruct (@starC_greedy p (fun w => k (c :: w)) s r
              (fun w => Hk (c :: w)) H)
    as (w & rest & -> & Hw & Hkw & Hmax).
  exists (c :: w), rest. repeat split; trivial; [discriminate|].
  unfold all; simpl. now rewrite Hp.
Qed.

Lemma plusC_complete p (k : jsstring -> jsstring -> option R) w rest :
  w <> [] -> all p w -> k w rest <> None -> plusC p k (w ++ rest) <> None.
Proof.
  destruct w as [|c w]; [congruence|]. intros _ Hw Hk.
  unfold all in Hw; simpl in Hw. apply andb_prop in Hw as [Hc Hw].
  simpl. rewrite Hc.
  now apply (@starC_complete p (fun w0 => k (c :: w0)) w rest).
Qed.

Lemma optC_sound p k s r :
  optC p k s = Some r ->
  k s = Some r
  \/ exists c s', s = c :: s' /\ p c = true /\ k s' = Some r.
Proof.
  destruct s as [|c s]; simpl; [now left|].
  destruct (p c) eqn:Hp; [|now left].
  destruct (k s) eqn:Hk; [|now left].
  intros [= ->]. right. now exists c, s.
Qed.

Lemma optC_skip p k s : k s <> None -> optC p k s <> None.
Proof.
  destruct s as [|c s]; simpl; trivial.
  destruct (p c); trivial. destruct (k s); [discriminate|trivial].
Qed.

Lemma optC_take p k c s :
  p c = true -> k s <> None -> optC p k (c :: s) <> None.
Proof.
  simpl. intros -> H. destruct (k s); [discriminate|contradiction].
Qed.

(** [exec] finds the leftmost start position at which [m] matches. *)
Lemma exec_sound (m : jsstring -> option R) s r :
  exec m s = Some r ->
  exists pre post,
    s = pre ++ post /\ m post = Some r
    /\ forall p1 p2, s = p1 ++ p2 -> List.length p1 < List.length pre ->
                     m p2 = None.
Proof.
  induction s as [|c s IH]; simpl.
  - destruct (m []) eqn:Hm; [|discriminate]. intros [= ->].
    exists [], []. repeat split; trivial. simpl; intros; lia.
  - destruct (m (c :: s)) eqn:Hm.
    + intros [= ->]. exists [], (c :: s). repeat split; trivial.
      simpl; intros; lia.
    + intros H. destruct (IH H) as (pre & post & -> & Hp & Hleft).
      exists (c :: pre), post. repeat split; trivial.
      intros p1 p2 E Hlen. destruct p1 as [|d p1].
      * simpl in E. now subst p2.
      * injection E as <- E. apply (Hleft p1 p2 E). simpl in Hlen. lia.
Qed.

Lemma exec_complete (m : jsstring -> option R) pre post :
  m post <> None -> exec m (pre ++ post) <> None.
Proof.
  intros Hm. induction pre as [|c pre IH]; simpl.
  - destruct post; simpl; destruct (m _); congruence.
  - destruct (m (c :: pre ++ post)); [discriminate|exact IH].
Qed.
End MatcherFacts.

Section TrimFacts.

Lemma trimStart_split s :
  exists l, s = l ++ trimStart s /\ all isSpace l
            /\ forall c t, trimStart s = c :: t -> isSpace c = false.
Proof.
  induction s as [|c s (l & E & Hl & Hh)]; simpl.
  - exists []. repeat split; trivial. discriminate.
  - destruct (isSpace c) eqn:Hc.
    + exists (c :: l). repeat split; trivial.
      * simpl. now rewrite <- E.
      * unfold all; simpl. now rewrite Hc.
    + exists []. repeat split; trivial.
      intros d t [= <- _]. exact Hc.
Qed.

Lemma all_rev p w : all p w -> all p (rev w).
Proof.
  unfold all. rewrite !forallb_forall. intros H x Hx.
  apply H. now apply in_rev.
Qed.

Lemma trimEnd_split s :
  exists r, s = trimEnd s ++ r /\ all isSpace r
            /\ forall c t, trimEnd s = t ++ [c] -> isSpace c = false.
Proof.
  unfold trimEnd. destruct (trimStart_split (rev s)) as (l & E & Hl & Hh).
  exists (rev l). repeat split.
  - rewrite <- rev_app_distr, <- E. now rewrite rev_involutive.
  - now apply all_rev.
  - intros c t Ht. apply (Hh c (rev t)).
    rewrite <- (rev_involutive (trimStart (rev s))), Ht.
    now rewrite rev_app_distr.
Qed.

Lemma trim_Trimmed raw : Trimmed raw (trim raw).
Proof.
  unfold trim.
  destruct (trimStart_split raw) as (l & El & Hl & Hhead).
  destruct (trimEnd_split (trimStart raw)) as (r & Er & Hr & Hlast).
  exists l, r. repeat split; trivial.
  - rewrite <- Er. exact El.
  - intros c t Ht. rewrite Ht in Er. simpl in Er. now apply (Hhead c (t ++ r)).
Qed.

Lemma map_trim_Trimmed (lines : list jsstring) :
  Forall2 Trimmed lines (map trim lines).
Proof.
  induction lines; simpl; constructor; auto using trim_Trimmed.
Qed.

End TrimFacts.

Section FooterFacts.
Import Utils.

Lemma token_at_sound s key rest :
  token_at s = Some (key, rest) -> Token key s rest.
Proof.
  unfold token_at. intros H.
  apply litC_sound in H as (r1 & -> & H).
  apply starC_sound in H as (ws1 & r2 & -> & Hws1 & H).
  apply plusC_sound in H as (w & r3 & -> & Hne & Hw & H).
  apply starC_sound in H as (ws2 & r4 & -> & Hws2 & H).
  apply litC_sound in H as (r5 & -> & [= <- <-]).
  exists ws1, ws2. repeat split; trivial.
Qed.

Lemma token_at_complete s key rest :
  Token key s rest -> token_at s <> None.
Proof.
  intros (ws1 & ws2 & -> & Hws1 & Hws2 & Hne & Hkey).
  unfold token_at. rewrite litC_app.
  apply starC_complete; trivial.
  apply plusC_complete; trivial.
  apply starC_complete; trivial.
  rewrite litC_app. discriminate.
Qed.

(** A token is at least its two opening braces. *)
Lemma Token_consumes key s rest :
  Token key s rest -> exists c w, s = c :: w ++ rest.
Proof.
  intros (ws1 & ws2 & -> & _).
  exists 123%N, (123%N :: ws1 ++ key ++ ws2 ++ lit "}}").
  change (lit "{{") with [123%N; 123%N]. simpl.
  now rewrite <- !app_assoc.
Qed.

Lemma replaceFrom_skip m f w rest :
  replaceFrom m f (List.length w) (w ++ rest) = replaceFrom m f 0 rest.
Proof.
  induction w as [|c w IH]; simpl; [|exact IH].
  destruct rest; reflexivity.
Qed.

Lemma replaceAllMatches_token f s key rest :
  token_at s = Some (key, rest) ->
  replaceAllMatches token_at f s
  = f key ++ replaceAllMatches token_at f rest.
Proof.
  intros H. destruct (Token_consumes (token_at_sound _ H)) as (c & w & E).
  subst s. unfold replaceAllMatches. simpl replaceFrom at 1. rewrite H.
  replace (List.length (w ++ rest) - List.length rest)
    with (List.length w) by (rewrite length_app; lia).
  now rewrite replaceFrom_skip.
Qed.

Lemma replaceAllMatches_char f c s :
  token_at (c :: s) = None ->
  replaceAllMatches token_at f (c :: s)
  = c :: replaceAllMatches token_at f s.
Proof.
  intros H. unfold replaceAllMatches. simpl replaceFrom at 1.
  now rewrite H.
Qed.

Lemma replaceAllMatches_Rendered f s :
  Rendered f s (replaceAllMatches token_at f s).
Proof.
  remember (List.length s) as n eqn:Hn.
  assert (Hle : List.length s <= n) by lia. clear Hn.
  revert s Hle. induction n as [|n IH]; intros s Hle.
  - destruct s; [constructor|simpl in Hle; lia].
  - destruct s as [|c s]; [constructor|].
    destruct (token_at (c :: s)) as [[key rest]|] eqn:Ht.
    + rewrite (replaceAllMatches_token _ _ Ht).
      pose proof (token_at_sound _ Ht) as Htok.
      apply Rendered_token with (rest := rest); trivial.
      apply IH. destruct (Token_consumes Htok) as (c' & w & E).
      injection E as _ ->. simpl in Hle. rewrite length_app in Hle. lia.
    + rewrite (replaceAllMatches_char _ _ _ Ht).
      apply Rendered_char.
      * intros key rest Htok. now apply (token_at_complete Htok).
      * apply IH. simpl in Hle. lia.
Qed.

End FooterFacts.

Section TokenUniqueness.

(** A maximal run of [p] characters at the head of a string is unique. *)
Lemma run_unique p w w' x x' :
  all p w -> all p w' -> stops p x -> stops p x' ->
  w ++ x = w' ++ x' -> w = w' /\ x = x'.
Proof.
  revert w'; induction w as [|c w IH]; intros [|c' w'] Hw Hw' Hx Hx' E;
    simpl in E.
  - now split.
  - exfalso. unfold all in Hw'; simpl in Hw'.
    apply andb_prop in Hw' as [Hc _].
    rewrite (Hx _ _ E) in Hc. discriminate.
  - exfalso. unfold all in Hw; simpl in Hw.
    apply andb_prop in Hw as [Hc _].
    rewrite (Hx' _ _ (eq_sym E)) in Hc. discriminate.
  - injection E as <- E.
    unfold all in Hw, Hw'; simpl in Hw, Hw'.
    apply andb_prop in Hw as [_ Hw]. apply andb_prop in Hw' as [_ Hw'].
    destruct (IH w' Hw Hw' Hx Hx' E) as [-> ->]. now split.
Qed.

Lemma between_true lo hi c :
  between lo hi c = true <-> (lo <= c /\ c <= hi)%N.
Proof.
  unfold between. rewrite andb_true_iff, !N.leb_le. tauto.
Qed.

Lemma isWord_range c : isWord c = true -> (48 <= c /\ c <= 122)%N.
Proof.
  unfold isWord. rewrite !orb_true_iff, !between_true, N.eqb_eq. lia.
Qed.

Lemma isSpace_range c : isSpace c = true -> (c <= 32 \/ 160 <= c)%N.
Proof.
  unfold isSpace. rewrite !orb_true_iff, !between_true, !N.eqb_eq. lia.
Qed.

Lemma word_not_space c : isWord c = true -> isSpace c = false.
Proof.
  intros Hw. destruct (isSpace c) eqn:Hs; trivial.
  apply isWord_range in Hw. apply isSpace_range in Hs. lia.
Qed.

Lemma space_not_word c : isSpace c = true -> isWord c = false.
Proof.
  intros Hs. destruct (isWord c) eqn:Hw; trivial.
  rewrite (word_not_space _ Hw) in Hs. discriminate.
Qed.

Lemma stops_space_at_key key x :
  key <> [] -> all isWord key -> stops isSpace (key ++ x).
Proof.
  destruct key as [|c key]; [congruence|]. intros _ Hk d t [= <- _].
  unfold all in Hk; simpl in Hk. apply andb_prop in Hk as [Hc _].
  now apply word_not_space.
Qed.

Lemma stops_word_after_key ws x :
  all isSpace ws -> stops isWord (ws ++ lit "}}" ++ x).
Proof.
  destruct ws as [|c ws]; intros Hws d t E.
  - change (lit "}}") with [125%N; 125%N] in E. now injection E as <- _.
  - injection E as <- _. unfold all in Hws; simpl in Hws.
    apply andb_prop in Hws as [Hc _]. now apply space_not_word.
Qed.

Lemma stops_space_at_close x : stops isSpace (lit "}}" ++ x).
Proof.
  intros d t E. change (lit "}}") with [125%N; 125%N] in E.
  now injection E as <- _.
Qed.

(** The token at the head of a string, if any, is unique. *)
Lemma Token_unique s key rest key' rest' :
  Token key s rest -> Token key' s rest' -> key = key' /\ rest = rest'.
Proof.
  intros (a1 & a2 & -> & Ha1 & Ha2 & Hne & Hk)
         (b1 & b2 & E & Hb1 & Hb2 & Hne' & Hk').
  apply app_inv_head in E.
  apply (@run_unique isSpace) in E as [<- E];
    auto using stops_space_at_key.
  apply (@run_unique isWord) in E as [<- E];
    auto using stops_word_after_key.
  apply (@run_unique isSpace) in E as [<- E];
    auto using stops_space_at_close.
  apply app_inv_head in E. now split.
Qed.

Lemma Token_not_empty key rest : ~ Token key [] rest.
Proof.
  intros (? & ? & E & _).
  change (lit "{{") with [123%N; 123%N] in E. discriminate.
Qed.

(** So the rendering of a string is unique. *)
Lemma Rendered_unique table s out1 out2 :
  Rendered table s out1 -> Rendered table s out2 -> out1 = out2.
Proof.
  intros H1; revert out2.
  induction H1 as [|key s rest out Htok _ IH|c s out Hno _ IH];
    intros out2 H2.
  - inversion H2 as [|key s rest out Htok _|]; subst; trivial.
    now apply Token_not_empty in Htok.
  - inversion H2 as [|key' s' rest' out' Htok' Hr'|c s' out' Hno' _];
      subst.
    + now apply Token_not_empty in Htok.
    + destruct (Token_unique Htok Htok') as [<- <-].
      f_equal. now apply IH.
    + now apply Hno' in Htok.
  - inversion H2 as [|key' s' rest' out' Htok' _|c' s' out' _ Hr']; subst.
    + now apply Hno in Htok'.
    + f_equal. now apply IH.
Qed.

End TokenUniqueness.

Section VersionFacts.
Import ConfiguratorPage.

Lemma isQuote_cases q :
  isQuote q = true -> [q] = [DQUOTE] \/ [q] = [SQUOTE].
Proof.
  unfold isQuote. rewrite orb_true_iff, !N.eqb_eq.
  intros [->| ->]; auto.
Qed.

Lemma version_at_sound s v :
  version_at s = Some v -> VersionAssignment s [] v.
Proof.
  unfold version_at. intros H.
  apply litC_sound in H as (r1 & -> & H).
  apply starC_sound in H as (ws & r2 & -> & Hws & H).
  assert (Hq : exists q r3,
             r2 = q ++ r3
             /\ (q = [] \/ q = [DQUOTE] \/ q = [SQUOTE])
             /\ plusC isDigit (fun major =>
                  litC (lit ".")
                    (plusC isDigit (fun minor =>
                       litC (lit ".")
                         (plusC isDigit (fun patch =>
                            optC isQuote (fun _ =>
                              Some (major ++ lit "." ++ minor
                                    ++ lit "." ++ patch))))))) r3
                = Some v).
  { apply optC_sound in H as [H|(q & r3 & -> & Hq & H)].
    - exists [], r2. auto.
    - exists [q], r3. repeat split; trivial.
      right. now apply isQuote_cases. }
  clear H. destruct Hq as (q & r3 & -> & Hq & H).
  apply plusC_sound in H as (a & r4 & -> & Ha0 & Ha & H).
  apply litC_sound in H as (r5 & -> & H).
  apply plusC_sound in H as (b & r6 & -> & Hb0 & Hb & H).
  apply litC_sound in H as (r7 & -> & H).
  apply plusC_greedy in H as (c & rest & -> & Hc0 & Hc & H & Hmax).
  2:{ intros w rest. apply optC_skip. discriminate. }
  assert (Hv : v = a ++ lit "." ++ b ++ lit "." ++ c).
  { apply optC_sound in H as [H|(? & ? & _ & _ & H)]; congruence. }
  subst v. exists ws, q, rest. repeat split; trivial.
  - rewrite app_nil_l. cbv [lit]. now rewrite <- !app_assoc.
  - exists a, b, c. repeat split; trivial.
Qed.

Lemma version_at_complete s v ws q rest :
  s = lit "version:" ++ ws ++ q ++ v ++ rest ->
  all isSpace ws -> (q = [] \/ q = [DQUOTE] \/ q = [SQUOTE]) ->
  SemVer v ->
  version_at s <> None.
Proof.
  intros -> Hws Hq (a & b & c & -> & Ha0 & Hb0 & Hc0 & Ha & Hb & Hc).
  unfold version_at. rewrite litC_app.
  apply starC_complete; trivial.
  assert (Hbody :
    plusC isDigit (fun major =>
      litC (lit ".")
        (plusC isDigit (fun minor =>
           litC (lit ".")
             (plusC isDigit (fun patch =>
                optC isQuote (fun _ =>
                  Some (major ++ lit "." ++ minor ++ lit "." ++ patch)))))))
      ((a ++ lit "." ++ b ++ lit "." ++ c) ++ rest) <> None).
  { rewrite <- !app_assoc.
    apply plusC_complete; trivial. rewrite litC_app.
    apply plusC_complete; trivial. rewrite litC_app.
    apply plusC_complete; trivial.
    apply optC_skip. discriminate. }
  destruct Hq as [->|[->| ->]].
  - apply optC_skip. exact Hbody.
  - apply optC_take; [reflexivity|exact Hbody].
  - apply optC_take; [reflexivity|exact Hbody].
Qed.

Lemma VersionAssignment_at pre post v :
  VersionAssignment post [] v -> VersionAssignment (pre ++ post) pre v.
Proof.
  intros (ws & q & rest & -> & H). exists ws, q, rest. now split.
Qed.

Lemma VersionAssignment_matches text pre v :
  VersionAssignment text pre v ->
  exists post, text = pre ++ post /\ version_at post <> None.
Proof.
  intros (ws & q & rest & -> & Hws & Hq & Hv & _).
  exists (lit "version:" ++ ws ++ q ++ v ++ rest). split; trivial.
  now apply (@version_at_complete _ v ws q rest).
Qed.

Lemma loadedVersion_found text v :
  loadedVersion text = Some v ->
  exists pre,
    VersionAssignment text pre v
    /\ forall pre' v', VersionAssignment text pre' v' ->
                       List.length pre <= List.length pre'.
Proof.
  unfold loadedVersion. intros H.
  apply exec_sound in H as (pre & post & -> & Hm & Hleft).
  exists pre. split.
  - now apply VersionAssignment_at, version_at_sound.
  - intros pre' v' Hassign.
    destruct (VersionAssignment_matches Hassign) as (post' & E & Hm').
    destruct (Nat.le_gt_cases (List.length pre) (List.length pre'));
      trivial.
    exfalso. apply Hm'. now apply (Hleft pre' post').
Qed.

Lemma loadedVersion_none text :
  loadedVersion text = None <->
  forall pre v, ~ VersionAssignment text pre v.
Proof.
  split.
  - intros Hnone pre v Hassign.
    destruct (VersionAssignment_matches Hassign) as (post & -> & Hm).
    exact (@exec_complete _ version_at pre post Hm Hnone).
  - intros Hno. destruct (loadedVersion text) as [v|] eqn:H; trivial.
    destruct (loadedVersion_found _ H) as (pre & Hassign & _).
    now apply Hno in Hassign.
Qed.

(** The captured text is never the empty string. *)
Lemma loadedVersion_falsy text :
  falsy (loadedVersion text) = true <-> loadedVersion text = None.
Proof.
  split; [|now intros ->].
  destruct (loadedVersion text) as [v|] eqn:H; trivial.
  destruct (loadedVersion_found _ H)
    as (_ & (_ & _ & _ & _ & _ & _ & (a & b & c & -> & Ha & _) & _) & _).
  destruct a; [congruence|discriminate].
Qed.

End VersionFacts.

Section StringFacts.

Lemma eqb_eq (a b : jsstring) : JS.eqb a b = true <-> a = b.
Proof.
  revert b; induction a as [|x a IH]; intros [|y b]; simpl;
    try (split; [discriminate|congruence]); try tauto.
  rewrite andb_true_iff, N.eqb_eq, IH. split.
  - now intros [-> ->].
  - now intros [= -> ->].
Qed.

Lemma lit_cons c s : lit (String c s) = N_of_ascii c :: lit s.
Proof. reflexivity. Qed.

Lemma uint_digits d : all isDigit (lit (NilEmpty.string_of_uint d)).
Proof.
  induction d; simpl NilEmpty.string_of_uint; try reflexivity;
    rewrite lit_cons; unfold all; simpl forallb; exact IHd.
Qed.

(** The decimal text of a non-negative integer: digits, at least one. *)
Lemma numberToString_digits z :
  (0 <= z)%Z ->
  all isDigit (numberToString z) /\ numberToString z <> [].
Proof.
  intros Hz. unfold numberToString.
  destruct z as [|p|p]; [split; [reflexivity|discriminate]| |lia].
  simpl Z.to_int. unfold NilZero.string_of_int, NilZero.string_of_uint.
  destruct (Pos.to_uint p) eqn:E;
    [split; [reflexivity|discriminate]|..];
    (split; [apply uint_digits|]);
    simpl NilEmpty.string_of_uint; rewrite lit_cons; discriminate.
Qed.

Lemma stripPrefix_sound l s rest :
  stripPrefix l s = Some rest <-> s = l ++ rest.
Proof.
  revert s; induction l as [|c l IH]; intros s; simpl.
  - split; congruence.
  - destruct s as [|d s]; [split; discriminate|].
    destruct (N.eqb_spec c d) as [->|Hne].
    + rewrite IH. split; congruence.
    + split; [discriminate|congruence].
Qed.

(** [splitFirst] cuts at the first occurrence of the pattern. *)
Lemma splitFirst_sound pat s pre post :
  splitFirst pat s = Some (pre, post) ->
  s = pre ++ pat ++ post
  /\ forall p1 p2, s = p1 ++ pat ++ p2 -> List.length pre <= List.length p1.
Proof.
  revert pre; induction s as [|c s IH]; intros pre; simpl.
  - destruct (stripPrefix pat []) eqn:E; [|discriminate].
    intros [= <- <-]. apply stripPrefix_sound in E. split; trivial.
    simpl; intros; lia.
  - destruct (stripPrefix pat (c :: s)) eqn:E.
    + intros [= <- <-]. apply stripPrefix_sound in E. split; trivial.
      simpl; intros; lia.
    + destruct (splitFirst pat s) as [[pre' post']|] eqn:Es; [|discriminate].
      intros [= <- <-]. destruct (IH _ eq_refl) as [-> Hleft].
      split; trivial. intros [|d p1] p2 E2.
      * simpl in E2. apply stripPrefix_sound in E2.
        congruence.
      * injection E2 as <- E2. simpl. apply Hleft in E2. lia.
Qed.

Lemma splitFirst_none pat s :
  splitFirst pat s = None -> forall p1 p2, s <> p1 ++ pat ++ p2.
Proof.
  induction s as [|c s IH]; simpl.
  - destruct (stripPrefix pat []) eqn:E; [discriminate|].
    intros _ [|d p1] p2 E2; [|discriminate].
    simpl in E2. apply stripPrefix_sound in E2. congruence.
  - destruct (stripPrefix pat (c :: s)) eqn:E; [discriminate|].
    destruct (splitFirst pat s) as [[pre' post']|] eqn:Es; [discriminate|].
    intros _ [|d p1] p2 E2.
    + simpl in E2. apply stripPrefix_sound in E2. congruence.
    + injection E2 as <- E2. now apply (IH eq_refl p1 p2).
Qed.

Lemma GetSubstitution_noDollar matched pre post tmpl :
  noDollar tmpl -> GetSubstitution matched pre post tmpl = tmpl.
Proof.
  unfold noDollar. induction tmpl as [|c t IH]; simpl; trivial.
  rewrite andb_true_iff. intros [Hc Ht].
  apply negb_true_iff in Hc. rewrite Hc. now rewrite IH.
Qed.

(** Without a dollar sign in the replacement, [replace] substitutes it
    literally for the first occurrence of the pattern. *)
Lemma replace_literal s pat repl :
  noDollar repl -> replace s pat repl = replaceFirstLiteral s pat repl.
Proof.
  intros H. unfold replace, replaceFirstLiteral.
  destruct (splitFirst pat s) as [[pre post]|]; trivial.
  now rewrite GetSubstitution_noDollar.
Qed.

End StringFacts.

Section ClassifyFacts.
Import ConfiguratorPage.

Lemma includes_In v x : includes v x = true <-> In x v.
Proof.
  unfold includes. rewrite existsb_exists. split.
  - intros (y & Hy & E). apply eqb_eq in E. now subst.
  - intros H. exists x. split; trivial. now apply eqb_eq.
Qed.

Lemma find_first {A} (f : A -> bool) l e :
  find f l = Some e ->
  exists pre post,
    l = pre ++ e :: post /\ f e = true
    /\ forall e', In e' pre -> f e' = false.
Proof.
  induction l as [|a l IH]; simpl; [discriminate|].
  destruct (f a) eqn:Hf.
  - intros [= ->]. exists [], l. repeat split; trivial. intros ? [].
  - intros H. destruct (IH H) as (pre & post & -> & He & Hpre).
    exists (a :: pre), post. repeat split; trivial.
    intros e' [<-|Hin]; auto.
Qed.

Lemma versionGroup_none entries x :
  versionGroup entries x = None <->
  forall g vs, In (g, vs) entries -> ~ In x vs.
Proof.
  unfold versionGroup. split.
  - destruct (find _ entries) eqn:E; [discriminate|]. intros _ g vs Hin Hx.
    apply (find_none _ _ E) in Hin. simpl in Hin.
    apply includes_In in Hx. congruence.
  - intros H. destruct (find _ entries) as [[g vs]|] eqn:E; trivial.
    apply find_some in E as [Hin Hx]. simpl in Hx.
    apply includes_In in Hx. now apply H in Hin.
Qed.

Lemma versionGroup_first entries x g :
  versionGroup entries x = Some g ->
  exists pre vs post,
    entries = pre ++ (g, vs) :: post /\ In x vs
    /\ forall g' vs', In (g', vs') pre -> ~ In x vs'.
Proof.
  unfold versionGroup. destruct (find _ entries) as [[g0 vs]|] eqn:E;
    [|discriminate].
  intros [= <-]. apply find_first in E as (pre & post & -> & Hx & Hpre).
  exists pre, vs, post. repeat split; trivial.
  - now apply includes_In.
  - intros g' vs' Hin Hx'. apply Hpre in Hin. simpl in Hin.
    apply includes_In in Hx'. congruence.
Qed.

End ClassifyFacts.

Section TrimUniqueness.

Lemma all_app p a b : all p (a ++ b) <-> all p a /\ all p b.
Proof. unfold all. rewrite forallb_app, andb_true_iff. tauto. Qed.

Lemma all_cons p c w : all p (c :: w) <-> p c = true /\ all p w.
Proof. unfold all. simpl. rewrite andb_true_iff. tauto. Qed.

Lemma Trimmed_blank l r t c u :
  all isSpace l -> all isSpace r ->
  l ++ r = ((t ++ c :: u) : jsstring) -> isSpace c = true.
Proof.
  intros Hl Hr E.
  assert (H : all isSpace (t ++ c :: u))
    by (rewrite <- E; now apply all_app).
  apply all_app in H as [_ H]. now apply all_cons in H.
Qed.

Lemma Trimmed_unique raw t t' : Trimmed raw t -> Trimmed raw t' -> t = t'.
Proof.
  intros (l & r & -> & Hl & Hr & Hhead & Hlast)
         (l' & r' & E & Hl' & Hr' & Hhead' & Hlast').
  destruct t as [|c u], t' as [|c' u']; trivial.
  - exfalso. simpl in E.
    pose proof (@Trimmed_blank l r l' c' (u' ++ r') Hl Hr E) as Hs.
    rewrite (Hhead' c' u' eq_refl) in Hs. discriminate.
  - exfalso. simpl in E. symmetry in E.
    pose proof (@Trimmed_blank l' r' l c (u ++ r) Hl' Hr' E) as Hs.
    rewrite (Hhead c u eq_refl) in Hs. discriminate.
  - apply (@run_unique isSpace) in E as [<- E]; trivial.
    2:{ intros d x [= <- _]. now apply (Hhead c u). }
    2:{ intros d x [= <- _]. now apply (Hhead' c' u'). }
    apply (f_equal (@rev char)) in E. rewrite !rev_app_distr in E.
    apply (@run_unique isSpace) in E as [_ E]; auto using all_rev.
    + rewrite <- (rev_involutive (c :: u)), E. apply rev_involutive.
    + intros d x Hx. apply (Hlast d (rev x)).
      rewrite <- (rev_involutive (c :: u)), Hx. reflexivity.
    + intros d x Hx. apply (Hlast' d (rev x)).
      rewrite <- (rev_involutive (c' :: u')), Hx. reflexivity.
Qed.

Lemma Forall2_Trimmed_unique lines a b :
  Forall2 Trimmed lines a -> Forall2 Trimmed lines b -> a = b.
Proof.
  intros Ha; revert b.
  induction Ha as [|raw t lines a Ht _ IH]; intros b Hb;
    inversion Hb as [|? t' ? b' Ht' Hb']; subst; trivial.
  f_equal; [exact (Trimmed_unique Ht Ht')|now apply IH].
Qed.

End TrimUniqueness.

Section DateFacts.
Open Scope Z_scope.

(** [YearFromTime] is the year the time value falls in. *)
Lemma YearFromTime_spec t :
  DayFromYear (YearFromTime t) * msPerDay <= t
  /\ t < DayFromYear (YearFromTime t + 1) * msPerDay.
Proof.
  unfold YearFromTime, msPerDay.
  set (day := t / 86400000).
  set (e := 1970 + day * 400 / 146097).
  assert (Hday : day * 86400000 <= t < (day + 1) * 86400000).
  { unfold day. Z.div_mod_to_equations. lia. }
  assert (He : DayFromYear (e - 1) <= day < DayFromYear (e + 2)).
  { unfold e, DayFromYear. clearbody day. clear. Z.div_mod_to_equations. lia. }
  cbv zeta.
  destruct (Z.leb_spec (DayFromYear (e + 1)) day).
  - replace (e + 1 + 1) with (e + 2) by lia. nia.
  - destruct (Z.leb_spec (DayFromYear e) day).
    + nia.
    + replace (e - 1 + 1) with e by lia. nia.
Qed.

End DateFacts.

Section VersionUniqueness.
Import ConfiguratorPage.

Lemma digit_not_space c : isDigit c = true -> isSpace c = false.
Proof.
  intros Hd. apply word_not_space. unfold isWord. unfold isDigit in Hd.
  rewrite Hd. now rewrite !orb_true_r.
Qed.

Lemma digit_range c : isDigit c = true -> (48 <= c /\ c <= 57)%N.
Proof. unfold isDigit. apply between_true. Qed.

Lemma SemVer_head v :
  SemVer v -> exists d w, v = d :: w /\ isDigit d = true.
Proof.
  intros (a & b & c & -> & Ha0 & _ & _ & Ha & _).
  destruct a as [|d a]; [congruence|]. apply all_cons in Ha as [Hd _].
  now exists d, (a ++ lit "." ++ b ++ lit "." ++ c).
Qed.

Lemma stops_digit_at_dot x : stops isDigit (lit "." ++ x).
Proof. intros d t E. now injection E as <- _. Qed.

(** A semantic-version literal that takes all the digits there are is
    determined by the text it starts. *)
Lemma SemVer_unique v rest v' rest' :
  SemVer v -> SemVer v' -> stops isDigit rest -> stops isDigit rest' ->
  v ++ rest = v' ++ rest' -> v = v'.
Proof.
  intros (a & b & c & -> & _ & _ & _ & Ha & Hb & Hc)
         (a' & b' & c' & -> & _ & _ & _ & Ha' & Hb' & Hc') Hr Hr' E.
  rewrite <- !app_assoc in E.
  apply (@run_unique isDigit) in E as [<- E];
    auto using stops_digit_at_dot.
  apply app_inv_head in E.
  apply (@run_unique isDigit) in E as [<- E];
    auto using stops_digit_at_dot.
  apply app_inv_head in E.
  apply (@run_unique isDigit) in E as [<- _]; auto.
Qed.

Lemma VersionAssignment_unique text pre v v' :
  VersionAssignment text pre v -> VersionAssignment text pre v' -> v = v'.
Proof.
  intros (ws & q & rest & -> & Hws & Hq & Hv & Hmax)
         (ws' & q' & rest' & E & Hws' & Hq' & Hv' & Hmax').
  apply app_inv_head in E. apply app_inv_head in E.
  destruct (SemVer_head Hv) as (d & w & Ed & Hd).
  destruct (SemVer_head Hv') as (d' & w' & Ed' & Hd').
  assert (Hstop : forall q0 v0 d0 w0 r0,
             (q0 = [] \/ q0 = [DQUOTE] \/ q0 = [SQUOTE]) ->
             v0 = d0 :: w0 -> isDigit d0 = true ->
             stops isSpace (q0 ++ v0 ++ r0)).
  { intros q0 v0 d0 w0 r0 [->|[->| ->]] -> H0 x t [= <- _];
      trivial. now apply digit_not_space. }
  apply (@run_unique isSpace) in E as [_ E]; eauto.
  assert (Eq : q = q' /\ v ++ rest = v' ++ rest').
  { unfold DQUOTE, SQUOTE in *.
    destruct Hq as [->|[->| ->]], Hq' as [->|[->| ->]]; simpl in E.
    - now split.
    - exfalso. rewrite Ed in E. injection E as -> _. discriminate Hd.
    - exfalso. rewrite Ed in E. injection E as -> _. discriminate Hd.
    - exfalso. rewrite Ed' in E. injection E as <- _. discriminate Hd'.
    - injection E as E. now split.
    - discriminate E.
    - exfalso. rewrite Ed' in E. injection E as <- _. discriminate Hd'.
    - discriminate E.
    - injection E as E. now split. }
  destruct Eq as [_ E']. exact (SemVer_unique Hv Hv' Hmax Hmax' E').
Qed.

Lemma prefix_same_length (pre pre' x x' : jsstring) :
  pre ++ x = pre' ++ x' -> List.length pre = List.length pre' -> pre = pre'.
Proof.
  revert pre'; induction pre as [|c pre IH]; intros [|c' pre'] E Hlen;
    simpl in *; try lia; trivial.
  injection E as <- E. f_equal. apply (IH pre' E). lia.
Qed.

Lemma loadedVersion_leftmost text v pre :
  VersionAssignment text pre v ->
  (forall pre' v', VersionAssignment text pre' v' ->
                   List.length pre <= List.length pre') ->
  loadedVersion text = Some v.
Proof.
  intros Hassign Hleft.
  destruct (loadedVersion text) as [v0|] eqn:H.
  - destruct (loadedVersion_found _ H) as (pre0 & Hassign0 & Hleft0).
    assert (Hlen : List.length pre0 = List.length pre).
    { apply Nat.le_antisymm; [exact (Hleft0 _ _ Hassign)|].
      exact (Hleft _ _ Hassign0). }
    assert (pre0 = pre).
    { destruct Hassign0 as (? & ? & ? & E0 & _).
      destruct Hassign as (? & ? & ? & E & _).
      rewrite E0 in E. exact (prefix_same_length _ _ _ _ E Hlen). }
    subst pre0. f_equal. exact (VersionAssignment_unique Hassign0 Hassign).
  - exfalso. exact (proj1 (loadedVersion_none text) H pre v Hassign).
Qed.

End VersionUniqueness.

(* ================================================================== *)
(** ** The footer formatter *)
(* ================================================================== *)

Section Footer.
Import Utils Samples.

(** C1.  For every list of footer lines and every site value,
    [formatFooterContent] is the rendering of the trimmed lines joined by
    line feeds: each [{{ key }}] token, white space inside the braces
    ignored, is replaced by the table's value of its key, and the rest of
    the text is kept.  The table gives [year], [repository], [poweredBy],
    [author], [version], [siteName], [handle] and [creator] the values
    listed.  With the lines ["Built by {{ creator }}"; "{{ year }}"] in
    2024 the result is "Built by mbaharip", a line feed, "2024". *)
Theorem formatFooterContent_renders
  (clock : Clock) (config : Config) (text : list FooterLine)
  (siteConfig : option Schema_Config_Site) :
  let data := nullish siteConfig (Schema.siteConfig config) in
  let table := replacer (formatMap clock config data) in
  (forall trimmed out,
      Forall2 Trimmed (map value text) trimmed ->
      Rendered table (join [NL] trimmed) out
      <-> out = formatFooterContent clock config text siteConfig)
  /\ table (lit "year") = numberToString (getFullYear clock)
  /\ table (lit "repository")
     = lit "[Source Code](https://github.com/mbaharip/next-gdrive-index)"
  /\ table (lit "poweredBy")
     = lit "Powered by [next-gdrive-index v"
       ++ nullish (version config) (lit "undefined")
       ++ lit "](https://github.com/mbaharip/next-gdrive-index)"
  /\ table (lit "author") = nullish (siteAuthor data) (lit "mbaharip")
  /\ table (lit "version") = nullish (version config) (lit "0.0.0")
  /\ table (lit "siteName")
     = nullish (siteName data) (lit "next-gdrive-index")
  /\ table (lit "handle")
     = nullish (twitterHandle data) (lit "@__mbaharip__")
  /\ table (lit "creator") = lit "mbaharip"
  /\ (getFullYear clock = 2024%Z ->
      formatFooterContent clock config builtByLines siteConfig
      = lit "Built by mbaharip" ++ [NL] ++ lit "2024").
Proof.
  intros data table. split; [|repeat split].
  - intros trimmed out Htrim.
    assert (E : trimmed = map (fun item => trim (value item)) text).
    { apply (Forall2_Trimmed_unique Htrim).
      rewrite <- (map_map value trim). apply map_trim_Trimmed. }
    subst trimmed.
    assert (Hr : Rendered table
                   (join [NL] (map (fun item => trim (value item)) text))
                   (formatFooterContent clock config text siteConfig))
      by apply replaceAllMatches_Rendered.
    split; [intros H; exact (Rendered_unique H Hr)|now intros ->].
  - unfold table, replacer, formatMap. simpl.
    destruct (version config); reflexivity.
  - intros Hy. unfold formatFooterContent, formatMap. rewrite Hy.
    reflexivity.
Qed.

Lemma formatFooterContent_renders_witness :
  (Rendered
     (replacer (formatMap june2024 config0 site0))
     (join [NL] [lit "Built by {{ creator }}"; lit "{{ year }}"])
     (lit "Built by mbaharip" ++ [NL] ++ lit "2024"))
  /\ formatFooterContent june2024 config0 builtByLines None
     = lit "Built by mbaharip" ++ [NL] ++ lit "2024".
Proof.
  destruct (formatFooterContent_renders june2024 config0 builtByLines None)
    as (Hrender & _ & _ & _ & _ & _ & _ & _ & _ & Hexample).
  split.
  - apply (Hrender [lit "Built by {{ creator }}"; lit "{{ year }}"]).
    + exact (map_trim_Trimmed
               [lit "Built by {{ creator }}"; lit "{{ year }}"]).
    + symmetry. apply Hexample. reflexivity.
  - apply Hexample. reflexivity.
Defined.

(** C2, as the code has it.  The result depends on the clock through the
    calendar year alone: for fixed lines, site value and configuration, two
    invocations made in the same year return the same string. *)
Theorem formatFooterContent_same_year
  (clock1 clock2 : Clock) (config : Config) (text : list FooterLine)
  (siteConfig : option Schema_Config_Site) :
  getFullYear clock1 = getFullYear clock2 ->
  formatFooterContent clock1 config text siteConfig
  = formatFooterContent clock2 config text siteConfig.
Proof.
  intros Hy. unfold formatFooterContent, formatMap. now rewrite Hy.
Qed.

Lemma formatFooterContent_same_year_witness :
  getFullYear january2024 = getFullYear june2024
  /\ formatFooterContent january2024 config0 builtByLines None
     = formatFooterContent june2024 config0 builtByLines None.
Proof.
  split; [reflexivity|].
  apply formatFooterContent_same_year. reflexivity.
Defined.

(** C2, as stated, fails: the same lines and the same site value give
    "2024" under a clock of 2024 and "2025" under a clock of 2025. *)
Lemma formatFooterContent_reads_the_clock :
  formatFooterContent june2024 config0 [ {| value := lit "{{ year }}" |} ]
    (Some site0) = lit "2024"
  /\ formatFooterContent january2025 config0
       [ {| value := lit "{{ year }}" |} ] (Some site0) = lit "2025"
  /\ formatFooterContent june2024 config0
       [ {| value := lit "{{ year }}" |} ] (Some site0)
     <> formatFooterContent january2025 config0
          [ {| value := lit "{{ year }}" |} ] (Some site0).
Proof.
  repeat split; try reflexivity. vm_compute. discriminate.
Qed.

(** A key that is neither in the table nor a property of
    [Object.prototype] is replaced by the empty string. *)
Lemma replacer_unknown_key fm key :
  getOwn fm key = None ->
  getOwn ObjectPrototype key = None ->
  replacer fm key = [].
Proof.
  intros H1 H2. unfold replacer, Get. now rewrite H1, H2.
Qed.

Lemma formatFooterContent_foo clock config siteConfig :
  formatFooterContent clock config [ {| value := lit "{{ foo }}" |} ]
    siteConfig = [].
Proof. reflexivity. Qed.

(** C7, at the inputs where the code departs from it.  The keys
    [__proto__] and [constructor] are bare identifiers absent from the
    table, and their tokens are not replaced by the empty string: the
    lookup reaches [Object.prototype]. *)
Theorem formatFooterContent_inherited_key clock config siteConfig :
  getOwn (formatMap clock config
            (nullish siteConfig (Schema.siteConfig config)))
         (lit "__proto__") = None
  /\ formatFooterContent clock config
       [ {| value := lit "{{ __proto__ }}" |} ] siteConfig
     = lit "[object Object]"
  /\ formatFooterContent clock config
       [ {| value := lit "{{ constructor }}" |} ] siteConfig
     = lit "function Object() { [native code] }".
Proof. repeat split. Qed.

End Footer.

(* ================================================================== *)
(** ** Version detection and classification *)
(* ================================================================== *)

Section Versions.
Import ConfiguratorPage Samples.

(** C3.  For every text, the detected version is the semantic-version
    literal of the leftmost [version:] assignment of the text; a text with
    such an assignment always yields one, and a text without any yields
    none, in which case the load ends with the notification "Version not
    found in configuration file".  A file that declares
    [version: "1.2.0"] yields "1.2.0". *)
Theorem loadedVersion_detects (text : jsstring) :
  (forall v,
      loadedVersion text = Some v
      <-> exists pre,
            VersionAssignment text pre v
            /\ forall pre' v', VersionAssignment text pre' v' ->
                               List.length pre <= List.length pre')
  /\ (forall pre v,
         VersionAssignment text pre v ->
         exists v', loadedVersion text = Some v')
  /\ (loadedVersion text = None
      <-> forall pre v, ~ VersionAssignment text pre v)
  /\ (loadedVersion text = None ->
      forall (Api Environment Blob : Type) table
             (process : jsstring -> jsstring ->
                        ActionResponse (ProcessedConfiguration Api))
             now (p : Page Api Environment Blob),
        let id := lit "config-" ++ numberToString now in
        onLoadConfig table process now (PickOk text) p
        = setIsLoadingConfig false
            (toast Error (lit "Version not found in configuration file")
               id None
               (toast Loading (lit "Waiting for file...") id None p)))
  /\ loadedVersion configText = Some (lit "1.2.0").
Proof.
  split; [|split; [|split; [|split]]].
  - intros v. split; [apply loadedVersion_found|].
    intros (pre & Hassign & Hleft).
    exact (loadedVersion_leftmost Hassign Hleft).
  - intros pre v Hassign.
    destruct (loadedVersion text) as [v'|] eqn:H; [now exists v'|].
    exfalso. exact (proj1 (loadedVersion_none text) H pre v Hassign).
  - apply loadedVersion_none.
  - intros Hnone Api Environment Blob table process now p id.
    unfold onLoadConfig. now rewrite Hnone.
  - reflexivity.
Qed.

Lemma loadedVersion_detects_witness :
  (exists pre, VersionAssignment configText pre (lit "1.2.0"))
  /\ loadedVersion (lit "export default {}") = None
  /\ toasts (onLoadConfig table0 acceptConfig 7 (PickOk (lit "export default {}"))
               page0)
     = [ {| kind := Loading; message := lit "Waiting for file...";
            id := lit "config-7"; description := None |};
         {| kind := Error;
            message := lit "Version not found in configuration file";
            id := lit "config-7"; description := None |} ].
Proof.
  split; [|split].
  - destruct (loadedVersion_detects configText) as (Hfound & _).
    destruct (proj1 (Hfound (lit "1.2.0")) eq_refl) as (pre & Hassign & _).
    now exists pre.
  - reflexivity.
  - destruct (loadedVersion_detects (lit "export default {}"))
      as (_ & _ & _ & Hfail & _).
    rewrite (Hfail eq_refl). reflexivity.
Defined.

(** C4, as the code has it.  Classification returns the first group, in
    the order of the table, whose list contains the version; it fails
    exactly when no group's list contains the version, and the load then
    ends with the notification "Version not recognized".  Unless the
    version is ambiguous, the group returned is the only one that lists
    it.  With group "v1" = {"1.0.0", "1.2.0"}, "1.2.0" is classified
    "v1". *)
Theorem versionGroup_first_listed
  (entries : list (jsstring * list jsstring)) (x : jsstring) :
  (versionGroup entries x = None
   <-> forall g vs, In (g, vs) entries -> ~ In x vs)
  /\ (forall g,
         versionGroup entries x = Some g ->
         exists pre vs post,
           entries = pre ++ (g, vs) :: post /\ In x vs
           /\ forall g' vs', In (g', vs') pre -> ~ In x vs')
  /\ (forall g,
         versionGroup entries x = Some g ->
         ~ Ambiguous entries x ->
         forall g' vs', In (g', vs') entries -> In x vs' -> g' = g)
  /\ (forall data,
         loadedVersion data = Some x ->
         versionGroup entries x = None ->
         forall (Api Environment Blob : Type)
                (process : jsstring -> jsstring ->
                           ActionResponse (ProcessedConfiguration Api))
                now (p : Page Api Environment Blob),
           let id := lit "config-" ++ numberToString now in
           onLoadConfig entries process now (PickOk data) p
           = setIsLoadingConfig false
               (toast Error (lit "Version not recognized") id
                  (Some (lit "Loaded version: " ++ x
                         ++ lit ", not matching any known version"))
                  (toast Loading (lit "Waiting for file...") id None p)))
  /\ versionGroup [ (lit "v1", [lit "1.0.0"; lit "1.2.0"]) ] (lit "1.2.0")
     = Some (lit "v1").
Proof.
  split; [|split; [|split; [|split]]].
  - apply versionGroup_none.
  - apply versionGroup_first.
  - intros g Hg Hunique g' vs' Hin Hx.
    destruct (list_eq_dec N.eq_dec g' g) as [|Hne]; trivial.
    exfalso. apply Hunique.
    destruct (versionGroup_first _ _ Hg) as (pre & vs & post & E & Hxvs & _).
    destruct (In_nth_error _ _ Hin) as (j & Hj).
    assert (Hi : nth_error entries (List.length pre) = Some (g, vs)).
    { rewrite E, nth_error_app2, Nat.sub_diag by lia. reflexivity. }
    exists j, (List.length pre), (g', vs'), (g, vs).
    repeat split; trivial; try (now apply includes_In).
    intros ->. rewrite Hi in Hj. congruence.
  - intros data Hv Hnone Api Environment Blob process now p id.
    unfold onLoadConfig. rewrite Hv.
    assert (Hf : falsy (Some x) = false).
    { destruct (falsy (Some x)) eqn:Hf; trivial.
      rewrite <- Hv in Hf. apply loadedVersion_falsy in Hf. congruence. }
    rewrite Hf. simpl nullish. now rewrite Hnone.
  - reflexivity.
Qed.

Lemma versionGroup_first_listed_witness :
  (exists pre vs post,
      table0 = pre ++ (lit "v2", vs) :: post /\ In (lit "2.0.0") vs)
  /\ (forall g' vs', In (g', vs') table0 -> In (lit "2.0.0") vs' ->
                     g' = lit "v2")
  /\ succeeded
       (onLoadConfig table0 acceptConfig 7
          (PickOk (lit "version: 9.9.9")) page0) = false.
Proof.
  destruct (versionGroup_first_listed table0 (lit "2.0.0"))
    as (_ & Hfirst & Hone & _).
  destruct (versionGroup_first_listed table0 (lit "9.9.9"))
    as (_ & _ & _ & Hfail & _).
  split; [|split].
  - destruct (Hfirst (lit "v2") eq_refl) as (pre & vs & post & E & Hx & _).
    now exists pre, vs, post.
  - apply (Hone (lit "v2") eq_refl).
    intros (i & j & e1 & e2 & Hij & Hi & Hj & Hne & H1 & H2).
    destruct i as [|[|[|i]]]; simpl in Hi;
      try (destruct i; discriminate);
      injection Hi as <-; try discriminate H1;
      destruct j as [|[|[|j]]]; simpl in Hj;
      try (destruct j; discriminate);
      injection Hj as <-; try discriminate H2; congruence.
  - rewrite (Hfail (lit "version: 9.9.9") eq_refl eq_refl). reflexivity.
Defined.

(** C4, as stated, fails: version 1.2.0 is listed by two groups of the
    table, and classification answers "v1" instead of failing; the load
    goes on and succeeds. *)
Lemma versionGroup_accepts_ambiguous_version :
  Ambiguous overlappingTable (lit "1.2.0")
  /\ versionGroup overlappingTable (lit "1.2.0") = Some (lit "v1")
  /\ succeeded
       (onLoadConfig overlappingTable acceptConfig 7 (PickOk configText)
          page0) = true.
Proof.
  split; [|split; reflexivity].
  exists 0, 1, (lit "v1", [lit "1.0.0"; lit "1.2.0"]),
    (lit "v2", [lit "1.2.0"; lit "2.0.0"]).
  repeat split; try reflexivity; discriminate.
Qed.

End Versions.

(* ================================================================== *)
(** ** The load handlers and the submit handler *)
(* ================================================================== *)

Section Handlers.
Import ConfiguratorPage Samples.
Variables Api Environment Blob : Type.
Variable versionExpectMap : list (jsstring * list jsstring).
Variable ProcessEnvironmentConfig : jsstring -> ActionResponse Environment.
Variable ProcessConfiguration :
  jsstring -> jsstring -> ActionResponse (ProcessedConfiguration Api).
Variable GenerateConfiguration :
  Document Api Environment -> ActionResponse Blob.
Implicit Types (p : Page Api Environment Blob).

Lemma succeeded_toast k msg id descr p :
  succeeded (toast k msg id descr p)
  = match k with Success => true | _ => false end.
Proof.
  unfold succeeded, toast. simpl toasts. now rewrite rev_unit.
Qed.

Lemma succeeded_setIsLoadingEnv b p :
  succeeded (setIsLoadingEnv b p) = succeeded p.
Proof. reflexivity. Qed.

Lemma succeeded_setIsLoadingConfig b p :
  succeeded (setIsLoadingConfig b p) = succeeded p.
Proof. reflexivity. Qed.

Lemma loadedVersion_truthy data v :
  loadedVersion data = Some v -> falsy (Some v) = false.
Proof.
  intros Hv. destruct (falsy (Some v)) eqn:Hf; trivial.
  rewrite <- Hv in Hf. apply loadedVersion_falsy in Hf. congruence.
Qed.

Lemma with_lists_same (s : Schema_Config_Site) :
  with_lists s (navbarItems s) (supports s) (footer s) = s.
Proof. now destruct s. Qed.

Ltac load_unchanged :=
  simpl falsy; cbv iota;
  split;
  [ reflexivity
  | rewrite ?succeeded_setIsLoadingEnv, ?succeeded_setIsLoadingConfig,
      succeeded_toast; reflexivity ].

(** C5.  Whatever the document, a load that fails at any stage (file pick
    error, version not found, version not recognized, processing error)
    ends without a success notification and leaves every field of the
    document as it was; more generally the document is written only by a
    load that ends with a success notification. *)
Theorem failed_load_keeps_document
  (now : Z) (response : PickFileResponse) p :
  (EnvLoadFails ProcessEnvironmentConfig response ->
   form (onLoadEnv ProcessEnvironmentConfig now response p) = form p
   /\ succeeded (onLoadEnv ProcessEnvironmentConfig now response p) = false)
  /\ (ConfigLoadFails versionExpectMap ProcessConfiguration response ->
      form (onLoadConfig versionExpectMap ProcessConfiguration now
              response p) = form p
      /\ succeeded (onLoadConfig versionExpectMap ProcessConfiguration now
                      response p) = false)
  /\ (succeeded (onLoadEnv ProcessEnvironmentConfig now response p) = false ->
      form (onLoadEnv ProcessEnvironmentConfig now response p) = form p)
  /\ (succeeded (onLoadConfig versionExpectMap ProcessConfiguration now
                   response p) = false ->
      form (onLoadConfig versionExpectMap ProcessConfiguration now
              response p) = form p).
Proof.
  split; [|split; [|split]].
  - intros [message details|data Hfail]; unfold onLoadEnv.
    + load_unchanged.
    + destruct (ProcessEnvironmentConfig data) as [m out|m e|] eqn:E.
      * destruct (Hfail m out eq_refl).
      * load_unchanged.
      * load_unchanged.
  - intros [message details|data Hnone|data v Hv Hnone|data v g Hv Hg Hfail];
      unfold onLoadConfig.
    + load_unchanged.
    + rewrite Hnone. load_unchanged.
    + rewrite Hv, (loadedVersion_truthy _ Hv). simpl nullish.
      rewrite Hnone. load_unchanged.
    + rewrite Hv, (loadedVersion_truthy _ Hv). simpl nullish. rewrite Hg.
      destruct (falsy (Some g)); [load_unchanged|]. simpl nullish.
      destruct (ProcessConfiguration data g) as [m out|m e|] eqn:E.
      * destruct (Hfail m out eq_refl).
      * load_unchanged.
      * load_unchanged.
  - unfold onLoadEnv. destruct response as [data|message details];
      [|reflexivity].
    destruct (ProcessEnvironmentConfig data) as [m out|m e|];
      [|reflexivity|reflexivity].
    rewrite succeeded_setIsLoadingEnv, succeeded_toast. discriminate.
  - unfold onLoadConfig. destruct response as [data|message details];
      [|reflexivity].
    destruct (falsy (loadedVersion data)); [reflexivity|].
    destruct (falsy (versionGroup versionExpectMap
                       (nullish (loadedVersion data) [])));
      [reflexivity|].
    destruct (ProcessConfiguration data _) as [m out|m e|];
      [|reflexivity|reflexivity].
    rewrite succeeded_setIsLoadingConfig, succeeded_toast. discriminate.
Qed.

(** C10.  A successful environment load replaces the [environment] section
    and leaves [site] and [api] as they were; a successful configuration
    load replaces [api] and [site], the three lists of [site] among its
    fields, and leaves [environment] as it was. *)
Theorem successful_load_writes_its_sections (now : Z) p :
  (forall data message out,
      ProcessEnvironmentConfig data = ActionOk message out ->
      form (onLoadEnv ProcessEnvironmentConfig now (PickOk data) p)
      = {| environment := out;
           api := api (form p);
           site := site (form p) |})
  /\ (forall data v group message out,
         loadedVersion data = Some v ->
         versionGroup versionExpectMap v = Some group ->
         group <> [] ->
         ProcessConfiguration data group = ActionOk message out ->
         let p' := onLoadConfig versionExpectMap ProcessConfiguration now
                     (PickOk data) p in
         form p'
         = {| environment := environment (form p);
              api := data_api out;
              site := data_site out |}
         /\ navbarItems (site (form p')) = navbarItems (data_site out)
         /\ supports (site (form p')) = supports (data_site out)
         /\ footer (site (form p')) = footer (data_site out)).
Proof.
  split.
  - intros data message out E. unfold onLoadEnv. now rewrite E.
  - intros data v group message out Hv Hg Hne E p'.
    assert (Hform : form p'
                    = {| environment := environment (form p);
                         api := data_api out;
                         site := data_site out |}).
    { unfold p', onLoadConfig.
      rewrite Hv, (loadedVersion_truthy _ Hv). simpl nullish. rewrite Hg.
      destruct group as [|c group]; [congruence|]. simpl falsy.
      simpl nullish. rewrite E. simpl.
      now destruct (data_site out). }
    split; [exact Hform|]. now rewrite Hform.
Qed.

(** C9, as the code has it.  After a successful generation the file
    offered for download is named by the decimal digits of [Date.now()],
    the milliseconds since the Unix epoch, followed by
    "-gIndex.config.zip". *)
Theorem onFormSubmit_download_name
  (t0 t1 : Z) (values : Document Api Environment) p message zip :
  GenerateConfiguration values = ActionOk message zip ->
  (0 <= t1)%Z ->
  let p' := onFormSubmit GenerateConfiguration t0 t1 values p in
  downloads p'
  = downloads p ++ [ (numberToString t1 ++ lit "-gIndex.config.zip", zip) ]
  /\ all isDigit (numberToString t1)
  /\ numberToString t1 <> []
  /\ succeeded p' = true.
Proof.
  intros E Ht p'. unfold p', onFormSubmit. rewrite E.
  destruct (numberToString_digits Ht) as [Hd Hne].
  repeat split; trivial. now rewrite succeeded_toast.
Qed.

End Handlers.

Section HandlerExamples.
Import ConfiguratorPage Samples.

Lemma failed_load_keeps_document_witness :
  form (onLoadEnv acceptEnv 7 (PickFail (lit "No file") []) page0) = doc0
  /\ form (onLoadConfig table0 refuseConfig 7 (PickOk configText) page0)
     = doc0.
Proof.
  destruct (failed_load_keeps_document table0 acceptEnv refuseConfig 7
              (PickFail (lit "No file") []) page0) as (Henv & _).
  destruct (failed_load_keeps_document table0 acceptEnv refuseConfig 7
              (PickOk configText) page0) as (_ & Hconfig & _).
  split.
  - apply Henv. constructor.
  - apply Hconfig.
    apply Config_ProcessingError with (v := lit "1.2.0") (group := lit "v1");
      [reflexivity|reflexivity|discriminate].
Defined.

Lemma successful_load_writes_its_sections_witness :
  form (onLoadEnv acceptEnv 7 (PickOk (lit "KEY=new")) page0)
  = {| environment := lit "KEY=new"; api := lit "api-old"; site := site0 |}
  /\ form (onLoadConfig table0 acceptConfig 7 (PickOk configText) page0)
     = {| environment := lit "KEY=old"; api := lit "api-v1";
          site := site1 |}.
Proof.
  destruct (successful_load_writes_its_sections table0 acceptEnv
              acceptConfig 7 page0) as [Henv Hconfig].
  split.
  - exact (Henv (lit "KEY=new") _ _ eq_refl).
  - refine (proj1 (Hconfig configText (lit "1.2.0") (lit "v1") _ _
                     eq_refl eq_refl _ eq_refl)).
    discriminate.
Defined.

Lemma onFormSubmit_download_name_witness :
  downloads (onFormSubmit acceptGenerate 1700000000000 1700000000005 doc0
               page0)
  = [ (lit "1700000000005-gIndex.config.zip", lit "zip-bytes") ].
Proof.
  refine (proj1 (@onFormSubmit_download_name _ _ _ acceptGenerate
                   1700000000000 1700000000005 doc0 page0 _ _ eq_refl _)).
  lia.
Defined.

(** C9, as stated, fails: the name offered after a successful generation
    at time 1700000000005 is not a timestamp followed by "-config.zip". *)
Lemma onFormSubmit_name_is_not_config_zip :
  downloads (onFormSubmit acceptGenerate 1700000000000 1700000000005 doc0
               page0)
  = [ (lit "1700000000005-gIndex.config.zip", lit "zip-bytes") ]
  /\ ~ TimestampConfigZip (lit "1700000000005-gIndex.config.zip").
Proof.
  split; [reflexivity|].
  intros (stamp & _ & _ & E).
  apply (f_equal (fun l => firstn 11 (rev l))) in E.
  rewrite rev_app_distr in E. vm_compute in E. discriminate.
Qed.

End HandlerExamples.

(* ================================================================== *)
(** ** The site form *)
(* ================================================================== *)

Section Site.
Import SiteForm Samples.

(** When the site name has no dollar sign, the preview is the template
    with the first "%t" replaced by the site name and then the first "%s"
    replaced by the page title. *)
Lemma siteNamePreview_literal t n :
  noDollar n ->
  siteNamePreview (Some t) (Some n)
  = replaceFirstLiteral (replaceFirstLiteral t (lit "%t") n) (lit "%s")
      (lit "Page Title Goes Here").
Proof.
  intros Hn. unfold siteNamePreview. simpl nullish.
  rewrite (replace_literal _ _ Hn). now apply replace_literal.
Qed.

(** C6, at an input where the code departs from it.  In the site name
    "Save $$ Today" the two dollar signs are read as a replacement
    pattern, and the preview shows one dollar sign where the literal
    replacement of "%t" has two. *)
Theorem siteNamePreview_dollar :
  siteNamePreview (Some (lit "%s - %t")) (Some (lit "Save $$ Today"))
  = lit "Page Title Goes Here - Save $ Today"
  /\ replaceFirstLiteral
       (replaceFirstLiteral (lit "%s - %t") (lit "%t")
          (lit "Save $$ Today"))
       (lit "%s") (lit "Page Title Goes Here")
     = lit "Page Title Goes Here - Save $$ Today".
Proof. split; reflexivity. Qed.

(** C8.  For every sequence of navbar items and every item, appending the
    item and then removing the element at the last index gives back the
    sequence, element by element and in order. *)
Theorem append_remove_restores (fields : list NavbarItem) (x : NavbarItem) :
  remove (append fields x) (List.length fields) = fields
  /\ List.length (append fields x) = S (List.length fields)
  /\ nth_error (append fields x) (List.length fields) = Some x.
Proof.
  unfold remove, append. repeat split.
  - induction fields as [|y fields IH]; simpl; [reflexivity|].
    f_equal. exact IH.
  - rewrite length_app. simpl. lia.
  - rewrite nth_error_app2, Nat.sub_diag by lia. reflexivity.
Qed.

End Site.

(* ================================================================== *)
(** ** Further properties of the footer formatter *)
(* ================================================================== *)

Section ReplaceFacts.
Variable m : jsstring -> option (jsstring * jsstring).
Variable f : jsstring -> jsstring.

Lemma replaceAllMatches_match c w rest key :
  m (c :: w ++ rest) = Some (key, rest) ->
  replaceAllMatches m f (c :: w ++ rest)
  = f key ++ replaceAllMatches m f rest.
Proof.
  intros H. unfold replaceAllMatches. simpl replaceFrom at 1. rewrite H.
  replace (List.length (w ++ rest) - List.length rest)
    with (List.length w) by (rewrite length_app; lia).
  now rewrite replaceFrom_skip.
Qed.

Lemma replaceAllMatches_nomatch c s :
  m (c :: s) = None ->
  replaceAllMatches m f (c :: s) = c :: replaceAllMatches m f s.
Proof.
  intros H. unfold replaceAllMatches. simpl replaceFrom at 1. now rewrite H.
Qed.

End ReplaceFacts.

Section MoreFooterFacts.
Import Utils SiteForm.

Lemma token_at_exact s key rest :
  Token key s rest -> token_at s = Some (key, rest).
Proof.
  intros Htok. destruct (token_at s) as [[key' rest']|] eqn:H.
  - destruct (Token_unique (token_at_sound _ H) Htok) as [-> ->].
    reflexivity.
  - now apply token_at_complete in Htok.
Qed.

Lemma token_at_other c s : N.eqb c 123 = false -> token_at (c :: s) = None.
Proof.
  intros Hc. unfold token_at. change (lit "{{") with [123%N; 123%N].
  cbn [litC]. rewrite N.eqb_sym in Hc. now rewrite Hc.
Qed.

Lemma noBrace_cons c s :
  noBrace (c :: s) <-> N.eqb c 123 = false /\ noBrace s.
Proof.
  unfold noBrace. simpl. rewrite andb_true_iff, negb_true_iff. tauto.
Qed.

Lemma noBrace_app a b : noBrace (a ++ b) <-> noBrace a /\ noBrace b.
Proof. unfold noBrace. rewrite forallb_app, andb_true_iff. tauto. Qed.

Lemma replace_noBrace_prefix f pre s :
  noBrace pre ->
  replaceAllMatches token_at f (pre ++ s)
  = pre ++ replaceAllMatches token_at f s.
Proof.
  induction pre as [|c pre IH]; intros H; [reflexivity|].
  apply noBrace_cons in H as [Hc H]. simpl.
  rewrite replaceAllMatches_nomatch by now apply token_at_other.
  now rewrite IH.
Qed.

Lemma replace_noBrace f s :
  noBrace s -> replaceAllMatches token_at f s = s.
Proof.
  intros H. rewrite <- (app_nil_r s) at 1.
  rewrite (replace_noBrace_prefix f [] H). apply app_nil_r.
Qed.

Lemma noBrace_Trimmed raw t : Trimmed raw t -> noBrace raw -> noBrace t.
Proof.
  intros (l & r & -> & _) H.
  apply noBrace_app in H as [_ H]. now apply noBrace_app in H as [H _].
Qed.

Lemma noBrace_join (l : list jsstring) :
  (forall x, In x l -> noBrace x) -> noBrace (join [NL] l).
Proof.
  induction l as [|x l IH]; intros H; [reflexivity|].
  destruct l as [|y l]; [apply H; now left|].
  change (join [NL] (x :: y :: l)) with (x ++ [NL] ++ join [NL] (y :: l)).
  apply noBrace_app. split; [apply H; now left|].
  apply noBrace_app. split; [reflexivity|].
  apply IH. intros z Hz. apply H. now right.
Qed.

End MoreFooterFacts.

Section FooterProperties.
Import Utils SiteForm Samples.

(** X1.  Lines without an opening brace are only trimmed and joined by
    line feeds: nothing is substituted. *)
Theorem formatFooterContent_without_braces
  clock config (text : list FooterLine) siteConfig :
  (forall item, In item text -> noBrace (value item)) ->
  formatFooterContent clock config text siteConfig
  = join [NL] (map (fun item => trim (value item)) text).
Proof.
  intros H. unfold formatFooterContent. apply replace_noBrace.
  apply noBrace_join. intros x Hx.
  apply in_map_iff in Hx as (item & <- & Hin).
  apply (noBrace_Trimmed (trim_Trimmed (value item))). now apply H.
Qed.

Lemma formatFooterContent_without_braces_witness :
  formatFooterContent june2024 config0
    [ {| value := lit "  All rights reserved " |};
      {| value := lit "}} not a token" |} ] None
  = lit "All rights reserved" ++ [NL] ++ lit "}} not a token".
Proof.
  apply (@formatFooterContent_without_braces june2024 config0
           [ {| value := lit "  All rights reserved " |};
             {| value := lit "}} not a token" |} ] None).
  intros item [<-|[<-|[]]]; reflexivity.
Defined.

(** X2.  Where the joined text has brace-free text, then a token with any
    white space around its key, then more text, the result is the brace-free
    text, the value the table gives the key, and the rendering of the rest:
    the inserted value is not scanned again. *)
Theorem formatFooterContent_token
  clock config (text : list FooterLine) siteConfig pre ws1 key ws2 post :
  let table :=
    replacer (formatMap clock config
                (nullish siteConfig (Schema.siteConfig config))) in
  join [NL] (map (fun item => trim (value item)) text)
  = pre ++ lit "{{" ++ ws1 ++ key ++ ws2 ++ lit "}}" ++ post ->
  noBrace pre -> all isSpace ws1 -> all isSpace ws2 ->
  key <> [] -> all isWord key ->
  formatFooterContent clock config text siteConfig
  = pre ++ table key ++ replaceAllMatches token_at table post.
Proof.
  intros table E Hpre Hws1 Hws2 Hne Hkey. unfold formatFooterContent.
  rewrite E. fold table. rewrite replace_noBrace_prefix by exact Hpre.
  f_equal. apply replaceAllMatches_token. apply token_at_exact.
  now exists ws1, ws2.
Qed.

Lemma formatFooterContent_token_witness :
  formatFooterContent june2024 config0
    [ {| value := lit "Made by {{" |}; {| value := lit "siteName  }}!" |} ]
    (Some site1)
  = lit "Made by " ++ lit "Loaded" ++ lit "!".
Proof.
  apply (@formatFooterContent_token june2024 config0
           [ {| value := lit "Made by {{" |};
             {| value := lit "siteName  }}!" |} ]
           (Some site1) (lit "Made by ") [NL] (lit "siteName") (lit "  ")
           (lit "!"));
    try reflexivity. discriminate.
Defined.

(** X3.  Every code the template guide of the footer form advertises is a
    key of the table itself: the token the guide prints for it renders as
    the table's own value of that key, for every clock, configuration and
    site value. *)
Theorem advertised_templates_render code :
  In code templates ->
  forall clock config siteConfig,
  exists v,
    getOwn (formatMap clock config
              (nullish siteConfig (Schema.siteConfig config))) code = Some v
    /\ formatFooterContent clock config [ {| value := templateToken code |} ]
         siteConfig = v.
Proof.
  intros Hin clock config siteConfig.
  unfold templates in Hin. simpl in Hin.
  repeat (destruct Hin as [<-|Hin];
          [eexists; split; [reflexivity|];
           unfold formatFooterContent; cbn; rewrite ?app_nil_r;
           reflexivity|]).
  destruct Hin.
Qed.

Lemma advertised_templates_render_witness :
  exists v,
    getOwn (formatMap june2024 config0 site0) (lit "handle") = Some v
    /\ formatFooterContent june2024 config0
         [ {| value := templateToken (lit "handle") |} ] None = v.
Proof.
  refine (@advertised_templates_render (lit "handle") _ june2024 config0
            None).
  unfold templates. simpl. tauto.
Defined.

End FooterProperties.

Section FooterLineProperties.
Import Utils SiteForm Samples.

Lemma trim_padded l s r :
  all isSpace l -> all isSpace r -> trim (l ++ s ++ r) = trim s.
Proof.
  intros Hl Hr.
  apply (@Trimmed_unique (l ++ s ++ r)); [apply trim_Trimmed|].
  destruct (trim_Trimmed s) as (l' & r' & E & Hl' & Hr' & Hhead & Hlast).
  exists (l ++ l'), (r' ++ r). repeat split; trivial.
  - rewrite E at 1. now rewrite <- !app_assoc.
  - now apply all_app.
  - now apply all_app.
Qed.

(** X4.  White space added at the ends of footer lines never changes the
    result. *)
Theorem formatFooterContent_padding
  clock config (text1 text2 : list FooterLine) siteConfig :
  Forall2 Padded text1 text2 ->
  formatFooterContent clock config text1 siteConfig
  = formatFooterContent clock config text2 siteConfig.
Proof.
  intros H. unfold formatFooterContent. do 2 f_equal.
  induction H as [|a b text1 text2 (l & r & E & Hl & Hr) _ IH];
    [reflexivity|].
  simpl. rewrite IH, E. now rewrite trim_padded.
Qed.

Lemma formatFooterContent_padding_witness :
  formatFooterContent june2024 config0
    [ {| value := lit "   {{ year }}  " |} ] None
  = formatFooterContent june2024 config0 [ {| value := lit "{{ year }}" |} ]
      None.
Proof.
  apply formatFooterContent_padding. constructor; [|constructor].
  exists (lit "   "), (lit "  "). repeat split.
Defined.

Lemma join_snoc (sep : jsstring) l x :
  l <> [] -> join sep (l ++ [x]) = join sep l ++ sep ++ x.
Proof.
  induction l as [|y l IH]; [congruence|]. intros _.
  destruct l as [|z l]; [reflexivity|].
  change (join sep ((y :: z :: l) ++ [x]))
    with (y ++ sep ++ join sep ((z :: l) ++ [x])).
  rewrite IH by discriminate.
  change (join sep (y :: z :: l)) with (y ++ sep ++ join sep (z :: l)).
  now rewrite <- !app_assoc.
Qed.

Lemma token_at_short c : token_at [c] = None.
Proof.
  unfold token_at. change (lit "{{") with [123%N; 123%N]. cbn [litC].
  now destruct (N.eqb 123 c).
Qed.

Lemma Token_extend key s rest t :
  Token key s rest -> Token key (s ++ t) (rest ++ t).
Proof.
  intros (ws1 & ws2 & -> & H). exists ws1, ws2. split; trivial.
  cbv [lit]. now rewrite <- !app_assoc.
Qed.

(** A token ends with a closing brace, so a character that is not one and
    is added at the end of a text is not part of any token. *)
Lemma Token_snoc key s c rest' :
  N.eqb c 125 = false ->
  Token key (s ++ [c]) rest' ->
  exists rest, rest' = rest ++ [c] /\ Token key s rest.
Proof.
  intros Hc (ws1 & ws2 & E & H).
  destruct rest' as [|r0 rest0].
  - exfalso.
    change (lit "}}") with [125%N; 125%N] in E.
    rewrite app_nil_r in E.
    replace (lit "{{" ++ ws1 ++ key ++ ws2 ++ [125%N; 125%N])
      with ((lit "{{" ++ ws1 ++ key ++ ws2 ++ [125%N]) ++ [125%N]) in E
      by (cbv [lit]; now rewrite <- !app_assoc).
    apply app_inj_tail in E as [_ ->]. discriminate.
  - destruct (@exists_last _ (r0 :: rest0)) as (rest & c' & Er);
      [discriminate|]. rewrite Er in *. clear Er.
    replace (lit "{{" ++ ws1 ++ key ++ ws2 ++ lit "}}" ++ rest ++ [c'])
      with ((lit "{{" ++ ws1 ++ key ++ ws2 ++ lit "}}" ++ rest) ++ [c']) in E
      by (cbv [lit]; now rewrite <- !app_assoc).
    apply app_inj_tail in E as [-> ->].
    exists rest. split; trivial. now exists ws1, ws2.
Qed.

Lemma replace_snoc f c s :
  N.eqb c 125 = false ->
  replaceAllMatches token_at f (s ++ [c])
  = replaceAllMatches token_at f s ++ [c].
Proof.
  intros Hc. remember (List.length s) as n eqn:Hn.
  assert (Hle : List.length s <= n) by lia. clear Hn.
  revert s Hle. induction n as [|n IH]; intros s Hle.
  - destruct s; [|simpl in Hle; lia]. simpl.
    rewrite replaceAllMatches_nomatch by apply token_at_short. reflexivity.
  - destruct s as [|d s].
    + simpl. rewrite replaceAllMatches_nomatch by apply token_at_short.
      reflexivity.
    + destruct (token_at (d :: s)) as [[key rest]|] eqn:Ht.
      * pose proof (token_at_sound _ Ht) as Htok.
        rewrite (replaceAllMatches_token _ _ Ht).
        transitivity (f key ++ replaceAllMatches token_at f (rest ++ [c])).
        { apply replaceAllMatches_token, token_at_exact.
          exact (Token_extend [c] Htok). }
        rewrite <- app_assoc. f_equal. apply IH.
        destruct (Token_consumes Htok) as (c' & w & E).
        injection E as _ ->. simpl in Hle. rewrite length_app in Hle.
        unfold jsstring, char in *. lia.
      * assert (Ht' : token_at ((d :: s) ++ [c]) = None).
        { destruct (token_at ((d :: s) ++ [c])) as [[key rest']|] eqn:Ht';
            trivial.
          apply token_at_sound in Ht'.
          destruct (@Token_snoc key (d :: s) c rest' Hc Ht')
            as (rest & _ & Htok).
          now apply token_at_complete in Htok. }
        transitivity (d :: replaceAllMatches token_at f (s ++ [c])).
        { exact (replaceAllMatches_nomatch token_at f d (s ++ [c]) Ht'). }
        transitivity ((d :: replaceAllMatches token_at f s) ++ [c]).
        2:{ apply (f_equal (fun l => l ++ [c])). symmetry.
            exact (replaceAllMatches_nomatch token_at f d s Ht). }
        simpl. f_equal. apply IH. simpl in Hle. lia.
Qed.

(** X5.  The "Add Item" button of the footer form appends an empty line:
    on a footer that has lines this adds exactly one line feed at the end of
    the rendered text. *)
Theorem formatFooterContent_add_item
  clock config (text : list FooterLine) siteConfig :
  text <> [] ->
  formatFooterContent clock config (append text newFooterLine) siteConfig
  = formatFooterContent clock config text siteConfig ++ [NL].
Proof.
  intros Hne. unfold formatFooterContent, append.
  rewrite map_app. simpl map.
  rewrite join_snoc by (destruct text; [congruence|discriminate]).
  change (trim (value newFooterLine)) with (@nil char).
  rewrite app_nil_r. now apply replace_snoc.
Qed.

Lemma formatFooterContent_add_item_witness :
  formatFooterContent june2024 config0 (append builtByLines newFooterLine)
    None
  = (lit "Built by mbaharip" ++ [NL] ++ lit "2024") ++ [NL].
Proof.
  apply (@formatFooterContent_add_item june2024 config0 builtByLines None).
  discriminate.
Defined.

End FooterLineProperties.

(* ================================================================== *)
(** ** toUrlPath *)
(* ================================================================== *)

Section UrlPathFacts.
Import Utils.

Lemma isSlash_eq c : isSlash c = true -> c = 47%N.
Proof. unfold isSlash. apply N.eqb_eq. Qed.

Lemma slashes_at_other c s : isSlash c = false -> slashes_at (c :: s) = None.
Proof. intros H. unfold slashes_at. simpl. now rewrite H. Qed.

Lemma slashes_at_run w rest :
  w <> [] -> all isSlash w -> stops isSlash rest ->
  slashes_at (w ++ rest) = Some (w, rest).
Proof.
  intros Hne Hw Hstop.
  destruct (slashes_at (w ++ rest)) as [[w' rest']|] eqn:H.
  - unfold slashes_at in H.
    apply plusC_greedy in H as (w0 & rest0 & E & _ & Hw0 & [= <- <-] & Hmax);
      [|discriminate].
    apply (@run_unique isSlash) in E as [-> ->]; trivial.
  - exfalso. revert H. unfold slashes_at.
    apply plusC_complete; trivial. discriminate.
Qed.

Lemma collapseSlashes_other c s :
  isSlash c = false -> collapseSlashes (c :: s) = c :: collapseSlashes s.
Proof.
  intros H. apply replaceAllMatches_nomatch. now apply slashes_at_other.
Qed.

Lemma collapseSlashes_run w rest :
  w <> [] -> all isSlash w -> stops isSlash rest ->
  collapseSlashes (w ++ rest) = 47%N :: collapseSlashes rest.
Proof.
  intros Hne Hw Hstop. pose proof (slashes_at_run Hne Hw Hstop) as H.
  destruct w as [|c w]; [congruence|].
  exact (@replaceAllMatches_match slashes_at (fun _ => lit "/") c w rest
           (c :: w) H).
Qed.

(** The longest run of slashes at the head of a text. *)
Lemma slash_run_split s :
  exists w rest, s = w ++ rest /\ all isSlash w /\ stops isSlash rest.
Proof.
  induction s as [|c s (w & rest & -> & Hw & Hstop)].
  - exists [], []. repeat split. discriminate.
  - destruct (isSlash c) eqn:Hc.
    + exists (c :: w), rest. repeat split; trivial. now apply all_cons.
    + exists [], (c :: w ++ rest). repeat split.
      intros d t [= <- _]. exact Hc.
Qed.

Lemma NoDoubleSlash_cons c s :
  NoDoubleSlash s -> isSlash c = false \/ stops isSlash s ->
  NoDoubleSlash (c :: s).
Proof.
  intros Hs Hc [|x a] b E.
  - change (lit "//") with [47%N; 47%N] in E. injection E as -> ->.
    destruct Hc as [Hc|Hc]; [discriminate|].
    discriminate (Hc 47%N b eq_refl).
  - injection E as _ E. exact (Hs a b E).
Qed.

Lemma NoDoubleSlash_tail c s : NoDoubleSlash (c :: s) -> NoDoubleSlash s.
Proof. intros H a b ->. exact (H (c :: a) b eq_refl). Qed.

Lemma NoDoubleSlash_head s :
  NoDoubleSlash (47%N :: s) -> stops isSlash s.
Proof.
  intros H d t ->. destruct (isSlash d) eqn:Hd; trivial.
  apply isSlash_eq in Hd. subst d. destruct (H [] t eq_refl).
Qed.

Lemma collapseSlashes_shape s :
  NoDoubleSlash (collapseSlashes s)
  /\ (stops isSlash s -> stops isSlash (collapseSlashes s)).
Proof.
  remember (List.length s) as n eqn:Hn.
  assert (Hle : List.length s <= n) by lia. clear Hn.
  revert s Hle. induction n as [|n IH]; intros s Hle.
  - destruct s; [|simpl in Hle; lia]. split.
    + intros [|? ?] b E; discriminate E.
    + intros _ d t E. discriminate E.
  - destruct s as [|c s].
    + split.
      * intros [|? ?] b E; discriminate E.
      * intros _ d t E. discriminate E.
    + destruct (isSlash c) eqn:Hc.
      * destruct (slash_run_split s) as (w & rest & -> & Hw & Hstop).
        assert (Hrun : collapseSlashes (c :: w ++ rest)
                       = 47%N :: collapseSlashes rest).
        { apply (@collapseSlashes_run (c :: w) rest); trivial;
            [discriminate|now apply all_cons]. }
        rewrite Hrun.
        assert (Hlen : List.length rest <= n).
        { simpl in Hle. rewrite length_app in Hle.
          unfold jsstring, char in *. lia. }
        destruct (IH rest Hlen) as [Hnd Hhead]. split.
        -- apply NoDoubleSlash_cons; auto.
        -- intros Hs. discriminate (eq_trans (eq_sym Hc) (Hs c _ eq_refl)).
      * rewrite (collapseSlashes_other _ _ Hc).
        assert (Hlen : List.length s <= n) by (simpl in Hle; lia).
        destruct (IH s Hlen) as [Hnd _]. split.
        -- apply NoDoubleSlash_cons; auto.
        -- intros _ d t [= <- _]. exact Hc.
Qed.

(** A text without two slashes in a row is left as it is. *)
Lemma collapseSlashes_fixed s :
  NoDoubleSlash s -> collapseSlashes s = s.
Proof.
  induction s as [|c s IH]; intros H; [reflexivity|].
  destruct (isSlash c) eqn:Hc.
  - pose proof (isSlash_eq _ Hc) as ->.
    transitivity (47%N :: collapseSlashes s).
    { apply (@collapseSlashes_run [47%N] s);
        [discriminate|reflexivity|now apply NoDoubleSlash_head]. }
    f_equal. apply IH. now apply NoDoubleSlash_tail in H.
  - rewrite (collapseSlashes_other _ _ Hc). f_equal. apply IH.
    now apply NoDoubleSlash_tail in H.
Qed.

Lemma filter_slash c s :
  isSlash c = true -> filter notSlash (c :: s) = filter notSlash s.
Proof. intros H. cbn [filter]. unfold notSlash at 1. now rewrite H. Qed.

Lemma filter_other c s :
  isSlash c = false -> filter notSlash (c :: s) = c :: filter notSlash s.
Proof. intros H. cbn [filter]. unfold notSlash at 1. now rewrite H. Qed.

Lemma filter_run w : all isSlash w -> filter notSlash w = [].
Proof.
  induction w as [|c w IH]; intros H; [reflexivity|].
  apply all_cons in H as [Hc H]. rewrite (filter_slash _ _ Hc). now apply IH.
Qed.

Lemma collapseSlashes_filter s :
  filter notSlash (collapseSlashes s) = filter notSlash s.
Proof.
  remember (List.length s) as n eqn:Hn.
  assert (Hle : List.length s <= n) by lia. clear Hn.
  revert s Hle. induction n as [|n IH]; intros s Hle.
  - destruct s; [reflexivity|simpl in Hle; lia].
  - destruct s as [|c s]; [reflexivity|].
    destruct (isSlash c) eqn:Hc.
    + destruct (slash_run_split s) as (w & rest & -> & Hw & Hstop).
      assert (Hrun : collapseSlashes (c :: w ++ rest)
                     = 47%N :: collapseSlashes rest).
      { apply (@collapseSlashes_run (c :: w) rest); trivial;
          [discriminate|now apply all_cons]. }
      rewrite Hrun, (@filter_slash 47%N _ eq_refl), (filter_slash _ _ Hc).
      rewrite filter_app, (filter_run Hw). simpl app. apply IH.
      simpl in Hle. rewrite length_app in Hle.
      unfold jsstring, char in *. lia.
    + rewrite (collapseSlashes_other _ _ Hc), !(filter_other _ _ Hc).
      f_equal. apply IH. simpl in Hle. lia.
Qed.

Lemma join_cons (sep x : jsstring) l :
  l <> [] -> join sep (x :: l) = x ++ sep ++ join sep l.
Proof. destruct l; [congruence|reflexivity]. Qed.

Lemma sep_join (sep : jsstring) l :
  l <> [] -> sep ++ join sep l = List.concat (map (fun x => sep ++ x) l).
Proof.
  induction l as [|x l IH]; [congruence|]. intros _.
  destruct l as [|y l].
  - simpl. now rewrite app_nil_r.
  - rewrite join_cons by discriminate.
    change (List.concat (map (fun x0 => sep ++ x0) (x :: y :: l)))
      with ((sep ++ x) ++ List.concat (map (fun x0 => sep ++ x0) (y :: l))).
    rewrite <- IH by discriminate. now rewrite <- app_assoc.
Qed.

Lemma filter_join_slash l :
  filter notSlash (join (lit "/") l) = filter notSlash (List.concat l).
Proof.
  induction l as [|x l IH]; [reflexivity|].
  destruct l as [|y l]; [simpl; now rewrite app_nil_r|].
  rewrite join_cons by discriminate.
  change (List.concat (x :: y :: l)) with (x ++ List.concat (y :: l)).
  rewrite !filter_app, IH. reflexivity.
Qed.

Lemma noSlash_cons c s :
  noSlash (c :: s) <-> isSlash c = false /\ noSlash s.
Proof.
  unfold noSlash. simpl. rewrite andb_true_iff, negb_true_iff. tauto.
Qed.

Lemma collapseSlashes_noSlash_prefix x s :
  noSlash x -> collapseSlashes (x ++ s) = x ++ collapseSlashes s.
Proof.
  induction x as [|c x IH]; intros H; [reflexivity|].
  apply noSlash_cons in H as [Hc H]. simpl.
  rewrite (collapseSlashes_other _ _ Hc). now rewrite IH.
Qed.

Lemma stops_segment x s :
  x <> [] -> noSlash x -> stops isSlash (x ++ s).
Proof.
  destruct x as [|c x]; [congruence|]. intros _ H d t [= <- _].
  now apply noSlash_cons in H as [Hc _].
Qed.

(** Segments that are not empty and have no slash, each after one slash:
    nothing to collapse. *)
Lemma collapseSlashes_segments (segs : list jsstring) :
  (forall x, In x segs -> x <> [] /\ noSlash x) ->
  collapseSlashes (List.concat (map (fun x => lit "/" ++ x) segs))
  = List.concat (map (fun x => lit "/" ++ x) segs).
Proof.
  induction segs as [|x segs IH]; intros H; [reflexivity|].
  destruct (H x (or_introl eq_refl)) as [Hne Hx]. simpl List.concat.
  change (lit "/") with [47%N].
  transitivity
    (47%N :: collapseSlashes
               (x ++ List.concat (map (fun x0 => 47%N :: x0) segs))).
  { apply (@collapseSlashes_run [47%N]);
      [discriminate|reflexivity|now apply stops_segment]. }
  f_equal. rewrite collapseSlashes_noSlash_prefix by exact Hx.
  f_equal. apply IH. intros y Hy. apply H. now right.
Qed.

End UrlPathFacts.

Section UrlPathProperties.
Import Utils MoreSamples.

Lemma joined_paths_head (segs : list jsstring) :
  exists t, join (lit "/") (lit "/" :: segs) = 47%N :: t.
Proof.
  destruct segs as [|x segs]; [now exists []|].
  rewrite join_cons by discriminate. now eexists.
Qed.

Lemma toUrlPath_head (paths : list PathItem) :
  exists t, toUrlPath paths = lit "/" ++ t.
Proof.
  unfold toUrlPath.
  destruct (joined_paths_head (map path paths)) as (t & ->).
  destruct (slash_run_split t) as (w & rest & -> & Hw & Hstop).
  exists (collapseSlashes rest).
  apply (@collapseSlashes_run (47%N :: w) rest);
    [discriminate|now apply all_cons|exact Hstop].
Qed.

Lemma toUrlPath_runs (paths : list PathItem) :
  NoDoubleSlash (toUrlPath paths).
Proof. unfold toUrlPath. apply collapseSlashes_shape. Qed.

(** X6.  Whatever the paths, the URL path starts with a slash and never
    has two slashes in a row. *)
Theorem toUrlPath_shape (paths : list PathItem) :
  (exists t, toUrlPath paths = lit "/" ++ t)
  /\ NoDoubleSlash (toUrlPath paths).
Proof. split; [apply toUrlPath_head|apply toUrlPath_runs]. Qed.

(** X7.  The characters of the paths other than slashes are all kept, in
    their order, and nothing else is added. *)
Theorem toUrlPath_keeps_characters (paths : list PathItem) :
  filter notSlash (toUrlPath paths)
  = filter notSlash (List.concat (map path paths)).
Proof.
  unfold toUrlPath. rewrite collapseSlashes_filter, filter_join_slash.
  reflexivity.
Qed.

(** X8.  When no path is empty or has a slash, the URL path is each path
    after one slash; without paths it is a single slash. *)
Theorem toUrlPath_segments (paths : list PathItem) :
  (forall p, In p paths -> path p <> [] /\ noSlash (path p)) ->
  toUrlPath paths
  = match paths with
    | [] => lit "/"
    | _ => List.concat (map (fun p => lit "/" ++ path p) paths)
    end.
Proof.
  intros H. destruct paths as [|p paths]; [reflexivity|].
  unfold toUrlPath.
  rewrite join_cons by discriminate.
  rewrite sep_join by discriminate. rewrite map_map.
  set (segs := p :: paths) in *.
  assert (Hfix : collapseSlashes
                   (List.concat (map (fun x => lit "/" ++ path x) segs))
                 = List.concat (map (fun x => lit "/" ++ path x) segs)).
  { rewrite <- (map_map path (fun x => lit "/" ++ x)).
    apply collapseSlashes_segments. intros x Hx.
    apply in_map_iff in Hx as (q & <- & Hq). now apply H. }
  rewrite <- Hfix at 2. unfold segs. simpl map. simpl List.concat.
  destruct (H p (or_introl eq_refl)) as [Hne Hp].
  change (lit "/") with [47%N]. simpl app.
  set (rest := path p ++ _).
  transitivity (47%N :: collapseSlashes rest).
  - apply (@collapseSlashes_run [47%N; 47%N] rest);
      [discriminate|reflexivity|now apply stops_segment].
  - symmetry. apply (@collapseSlashes_run [47%N] rest);
      [discriminate|reflexivity|now apply stops_segment].
Qed.

Lemma toUrlPath_segments_witness :
  toUrlPath folderPaths = lit "/docs/2024".
Proof.
  apply (toUrlPath_segments folderPaths).
  intros p [<-|[<-|[]]]; (split; [discriminate|reflexivity]).
Defined.

(** X9.  A URL path passed again as the only path comes back unchanged. *)
Theorem toUrlPath_again (paths : list PathItem) (i : jsstring) :
  toUrlPath [ {| path := toUrlPath paths; path_id := i |} ]
  = toUrlPath paths.
Proof.
  destruct (toUrlPath_head paths) as (t & E).
  pose proof (toUrlPath_runs paths) as Hnd.
  unfold toUrlPath at 1. simpl map. rewrite E in *.
  change (lit "/") with [47%N] in *. simpl in Hnd |- *.
  transitivity (47%N :: collapseSlashes t).
  - apply (@collapseSlashes_run [47%N; 47%N; 47%N] t);
      [discriminate|reflexivity|now apply NoDoubleSlash_head].
  - f_equal. apply collapseSlashes_fixed. now apply NoDoubleSlash_tail in Hnd.
Qed.

End UrlPathProperties.

(* ================================================================== *)
(** ** formatPathToBreadcrumb *)
(* ================================================================== *)

Section BreadcrumbProperties.
Import Utils MoreSamples.
Variable decodeURIComponent : jsstring -> option jsstring.
Variable safeParse : list Breadcrumb -> option (list Breadcrumb).

Lemma breadcrumbFrom_some len index paths raw :
  breadcrumbFrom decodeURIComponent len index paths = Some raw ->
  List.length raw = List.length paths
  /\ forall i item,
       nth_error paths i = Some item ->
       exists label,
         decodeURIComponent (bp_path item) = Some label
         /\ nth_error raw i
            = Some {| bc_label := label;
                      bc_href := if Z.eqb (index + Z.of_nat i) (len - 1)
                                 then None else Some (bp_path item) |}.
Proof.
  revert index raw. induction paths as [|p paths IH]; intros index raw; simpl.
  - intros [= <-]. split; trivial. intros [|i] item H; discriminate H.
  - destruct (decodeURIComponent (bp_path p)) as [label|] eqn:Hd;
      [|discriminate].
    destruct (breadcrumbFrom decodeURIComponent len (index + 1) paths)
      as [more|] eqn:Hm; [|discriminate].
    intros [= <-]. destruct (IH _ _ Hm) as [Hlen Hnth]. split.
    + simpl. now rewrite Hlen.
    + intros [|i] item H.
      * injection H as <-. exists label. split; trivial.
        simpl. now rewrite Z.add_0_r.
      * destruct (Hnth i item H) as (l & Hl & Hi). exists l. split; trivial.
        cbn [nth_error]. rewrite Hi.
        replace (index + 1 + Z.of_nat i)%Z with (index + Z.of_nat (S i))%Z
          by lia.
        reflexivity.
Qed.

Lemma breadcrumbFrom_none len index paths :
  breadcrumbFrom decodeURIComponent len index paths = None
  <-> exists item, In item paths /\ decodeURIComponent (bp_path item) = None.
Proof.
  revert index. induction paths as [|p paths IH]; intros index; simpl.
  - split; [discriminate|now intros (? & [] & _)].
  - destruct (decodeURIComponent (bp_path p)) as [label|] eqn:Hd.
    + destruct (breadcrumbFrom decodeURIComponent len (index + 1) paths)
        as [more|] eqn:Hm.
      * split; [discriminate|]. intros (item & [<-|Hin] & Hnone);
          [congruence|].
        assert (H : breadcrumbFrom decodeURIComponent len (index + 1) paths
                    = None) by (apply IH; now exists item).
        congruence.
      * split; trivial. intros _. apply IH in Hm as (item & Hin & Hnone).
        exists item. split; [now right|trivial].
    + split; trivial. intros _. exists p. split; [now left|trivial].
Qed.

(** X10.  When [formatPathToBreadcrumb] returns, what it returns is the
    validated form of a list with one entry per path, in order, each
    labelled with its decoded path; every entry but the last links to its
    path and the last has no link.  It throws a URIError exactly when some
    path cannot be decoded. *)
Theorem formatPathToBreadcrumb_entries (paths : list BreadcrumbPath) :
  (forall data,
      formatPathToBreadcrumb decodeURIComponent safeParse paths
      = Returns data ->
      exists raw,
        safeParse raw = Some data
        /\ List.length raw = List.length paths
        /\ forall i item,
             nth_error paths i = Some item ->
             exists label,
               decodeURIComponent (bp_path item) = Some label
               /\ nth_error raw i
                  = Some {| bc_label := label;
                            bc_href := if Nat.eqb (S i) (List.length paths)
                                       then None
                                       else Some (bp_path item) |})
  /\ (formatPathToBreadcrumb decodeURIComponent safeParse paths
      = Throws URIError
      <-> exists item,
            In item paths /\ decodeURIComponent (bp_path item) = None).
Proof.
  unfold formatPathToBreadcrumb. split.
  - intros data H.
    destruct (breadcrumbFrom decodeURIComponent _ 0 paths) as [raw|] eqn:Hb;
      [|discriminate].
    destruct (safeParse raw) as [d|] eqn:Hp; [|discriminate].
    injection H as ->. exists raw.
    destruct (breadcrumbFrom_some _ _ _ Hb) as [Hlen Hnth].
    repeat split; trivial.
    intros i item Hi. destruct (Hnth i item Hi) as (l & Hl & Hr).
    exists l. split; trivial. rewrite Hr. do 3 f_equal.
    destruct (Nat.eqb_spec (S i) (List.length paths)) as [E|E];
      [rewrite (proj2 (Z.eqb_eq _ _))|rewrite (proj2 (Z.eqb_neq _ _))];
      trivial; lia.
  - rewrite <- (breadcrumbFrom_none (Z.of_nat (List.length paths)) 0 paths).
    destruct (breadcrumbFrom decodeURIComponent _ 0 paths) as [raw|];
      [|tauto].
    destruct (safeParse raw); split; discriminate.
Qed.

End BreadcrumbProperties.

Section BreadcrumbExamples.
Import Utils MoreSamples.

Lemma formatPathToBreadcrumb_entries_witness :
  exists raw,
    acceptAll raw
    = Some [ {| bc_label := lit "docs"; bc_href := Some (lit "docs") |};
             {| bc_label := lit "a b"; bc_href := None |} ]
    /\ List.length raw = 2.
Proof.
  destruct (formatPathToBreadcrumb_entries decodeSample acceptAll crumbPaths)
    as [Hret _].
  destruct (Hret _ eq_refl) as (raw & Hp & Hlen & _).
  now exists raw.
Defined.

End BreadcrumbExamples.

(* ================================================================== *)
(** ** Further properties of the handlers *)
(* ================================================================== *)

Section HandlerProperties.
Import ConfiguratorPage.
Variables Api Environment Blob : Type.
Variable versionExpectMap : list (jsstring * list jsstring).
Variable ProcessEnvironmentConfig : jsstring -> ActionResponse Environment.
Variable ProcessConfiguration :
  jsstring -> jsstring -> ActionResponse (ProcessedConfiguration Api).
Variable GenerateConfiguration :
  Document Api Environment -> ActionResponse Blob.
Variable initialConfiguration : Document Api Environment.
Implicit Types (p : Page Api Environment Blob).

Lemma Notifies_1 opId p p' t1 :
  toasts p' = (toasts p ++ [t1]) -> id t1 = opId -> Notifies opId p p'.
Proof.
  intros E H1. exists [t1]. repeat split; trivial; [discriminate|].
  now repeat constructor.
Qed.

Lemma Notifies_2 opId p p' t1 t2 :
  toasts p' = (toasts p ++ [t1]) ++ [t2] ->
  id t1 = opId -> id t2 = opId -> Notifies opId p p'.
Proof.
  intros E H1 H2. exists [t1; t2]. rewrite E, <- app_assoc.
  repeat split; trivial; [discriminate|]. now repeat constructor.
Qed.

Lemma Notifies_3 opId p p' t1 t2 t3 :
  toasts p' = ((toasts p ++ [t1]) ++ [t2]) ++ [t3] ->
  id t1 = opId -> id t2 = opId -> id t3 = opId -> Notifies opId p p'.
Proof.
  intros E H1 H2 H3. exists [t1; t2; t3]. rewrite E, <- !app_assoc.
  repeat split; trivial; [discriminate|]. now repeat constructor.
Qed.

Ltac notifies :=
  first [ eapply Notifies_1; reflexivity
        | eapply Notifies_2; reflexivity
        | eapply Notifies_3; reflexivity ].

(** X11.  Each handler only adds notifications, at least one, and all it
    adds carry the id of the operation; the loads offer no download and
    leave the loading flag of the other load alone, and the submit leaves
    the document and both flags alone. *)
Theorem handlers_notify (now t1 : Z) (response : PickFileResponse)
  (values : Document Api Environment) p :
  let pe := onLoadEnv ProcessEnvironmentConfig now response p in
  let pc := onLoadConfig versionExpectMap ProcessConfiguration now
              response p in
  let ps := onFormSubmit GenerateConfiguration now t1 values p in
  (Notifies (lit "env-latest-" ++ numberToString now) p pe
   /\ downloads pe = downloads p
   /\ isLoadingConfig pe = isLoadingConfig p)
  /\ (Notifies (lit "config-" ++ numberToString now) p pc
      /\ downloads pc = downloads p
      /\ isLoadingEnv pc = isLoadingEnv p)
  /\ (Notifies (lit "download-" ++ numberToString now) p ps
      /\ form ps = form p
      /\ isLoadingEnv ps = isLoadingEnv p
      /\ isLoadingConfig ps = isLoadingConfig p).
Proof.
  intros pe pc ps. split; [|split].
  - unfold pe, onLoadEnv. destruct response as [data|message details].
    + destruct (ProcessEnvironmentConfig data); repeat split; notifies.
    + repeat split; notifies.
  - unfold pc, onLoadConfig. destruct response as [data|message details].
    + destruct (falsy (loadedVersion data)); [repeat split; notifies|].
      destruct (falsy (versionGroup versionExpectMap _));
        [repeat split; notifies|].
      destruct (ProcessConfiguration data _); repeat split; notifies.
    + repeat split; notifies.
  - unfold ps, onFormSubmit.
    destruct (GenerateConfiguration values); repeat split; notifies.
Qed.

(** X12.  A load whose server action returns, or that ends before calling
    it, always clears its loading flag; when the action is rejected the
    flag is left as it was, the document too, and the last notification is
    still the one of a load in progress. *)
Theorem load_flag (now : Z) p :
  (forall response,
      (forall data, response = PickOk data ->
                    ProcessEnvironmentConfig data <> ActionRejected) ->
      isLoadingEnv (onLoadEnv ProcessEnvironmentConfig now response p)
      = false)
  /\ (forall response,
         (forall data v group,
             response = PickOk data -> loadedVersion data = Some v ->
             versionGroup versionExpectMap v = Some group ->
             ProcessConfiguration data group <> ActionRejected) ->
         isLoadingConfig
           (onLoadConfig versionExpectMap ProcessConfiguration now response p)
         = false)
  /\ (forall data,
         ProcessEnvironmentConfig data = ActionRejected ->
         let p' := onLoadEnv ProcessEnvironmentConfig now (PickOk data) p in
         isLoadingEnv p' = isLoadingEnv p /\ form p' = form p
         /\ forall t, kind (last (toasts p') t) = Loading)
  /\ (forall data v group,
         loadedVersion data = Some v ->
         versionGroup versionExpectMap v = Some group -> group <> [] ->
         ProcessConfiguration data group = ActionRejected ->
         let p' := onLoadConfig versionExpectMap ProcessConfiguration now
                     (PickOk data) p in
         isLoadingConfig p' = isLoadingConfig p /\ form p' = form p
         /\ forall t, kind (last (toasts p') t) = Loading).
Proof.
  split; [|split; [|split]].
  - intros [data|message details] H; unfold onLoadEnv; [|reflexivity].
    specialize (H data eq_refl).
    destruct (ProcessEnvironmentConfig data); [reflexivity..|congruence].
  - intros [data|message details] H; unfold onLoadConfig; [|reflexivity].
    destruct (loadedVersion data) as [v|] eqn:Hv; [|reflexivity].
    destruct (falsy (Some v)); [reflexivity|]. simpl nullish.
    destruct (versionGroup versionExpectMap v) as [g|] eqn:Hg;
      [|reflexivity].
    destruct (falsy (Some g)); [reflexivity|]. simpl nullish.
    specialize (H data v g eq_refl Hv Hg).
    destruct (ProcessConfiguration data g); [reflexivity..|congruence].
  - intros data H p'. unfold p', onLoadEnv. rewrite H.
    repeat split. intros t.
    cbn [toasts toast]. rewrite last_last. reflexivity.
  - intros data v g Hv Hg Hne H p'. unfold p', onLoadConfig.
    rewrite Hv. destruct (falsy (Some v)) eqn:Hf.
    { rewrite <- Hv in Hf. apply loadedVersion_falsy in Hf. congruence. }
    simpl nullish. rewrite Hg. destruct g as [|c g]; [congruence|].
    simpl falsy. simpl nullish. rewrite H.
    repeat split. intros t.
    cbn [toasts toast]. rewrite last_last. reflexivity.
Qed.

(** X13.  A generation that does not succeed offers no download and ends
    without a success notification; when the action reports a failure, the
    last notification is an error with the action's message and its error
    text as description. *)
Theorem onFormSubmit_failure
  (t0 t1 : Z) (values : Document Api Environment) p :
  let p' := onFormSubmit GenerateConfiguration t0 t1 values p in
  ((forall message zip,
       GenerateConfiguration values <> ActionOk message zip) ->
   downloads p' = downloads p /\ succeeded p' = false)
  /\ (forall message error,
         GenerateConfiguration values = ActionFail message error ->
         forall t,
           last (toasts p') t
           = {| kind := Error; message := message;
                id := lit "download-" ++ numberToString t0;
                description := Some error |}).
Proof.
  intros p'. unfold p', onFormSubmit. split.
  - intros H. destruct (GenerateConfiguration values) as [m zip|m e|].
    + destruct (H m zip eq_refl).
    + split; [reflexivity|]. unfold succeeded. cbn [toasts toast].
      now rewrite rev_unit.
    + split; [reflexivity|]. unfold succeeded. cbn [toasts toast].
      now rewrite rev_unit.
  - intros message error E t. rewrite E. cbn [toasts toast].
    now rewrite last_last.
Qed.

End HandlerProperties.

Section ResetProperties.
Import ConfiguratorPage.
Variables Api Environment Blob : Type.
Variable versionExpectMap : list (jsstring * list jsstring).
Variable ProcessEnvironmentConfig : jsstring -> ActionResponse Environment.
Variable ProcessConfiguration :
  jsstring -> jsstring -> ActionResponse (ProcessedConfiguration Api).
Variable initialConfiguration : Document Api Environment.
Implicit Types (p : Page Api Environment Blob).

Lemma onReset_sets toastId c p :
  SectionIsDefault initialConfiguration
    (form (onReset initialConfiguration toastId (Some c) p)) c.
Proof. now destruct c. Qed.

Lemma onReset_keeps toastId c c' p :
  SectionIsDefault initialConfiguration (form p) c' ->
  SectionIsDefault initialConfiguration
    (form (onReset initialConfiguration toastId (Some c) p)) c'.
Proof. destruct c, c'; simpl; trivial. Qed.

Lemma resets_keep toastId cs c' p :
  SectionIsDefault initialConfiguration (form p) c' ->
  SectionIsDefault initialConfiguration
    (form (fold_left
             (fun q c => onReset initialConfiguration toastId (Some c) q)
             cs p)) c'.
Proof.
  revert p. induction cs as [|c cs IH]; intros p H; [exact H|].
  simpl. apply IH. now apply onReset_keeps.
Qed.

Lemma resets_set toastId cs c' p :
  In c' cs ->
  SectionIsDefault initialConfiguration
    (form (fold_left
             (fun q c => onReset initialConfiguration toastId (Some c) q)
             cs p)) c'.
Proof.
  revert p. induction cs as [|c cs IH]; intros p Hin; [destruct Hin|].
  simpl. destruct Hin as [->|Hin].
  - apply resets_keep, onReset_sets.
  - now apply IH.
Qed.

(** X14.  Resetting the categories one at a time, in any order and however
    often, as long as each of the three is reset once, leaves the document
    that "Reset All" leaves: the initial configuration. *)
Theorem onReset_each_category
  (toastId : jsstring) (cs : list ConfigurationCategory) p :
  In Category_environment cs -> In Category_api cs -> In Category_site cs ->
  form (fold_left
          (fun q c => onReset initialConfiguration toastId (Some c) q) cs p)
  = form (onReset initialConfiguration toastId None p).
Proof.
  intros He Ha Hs.
  pose proof (@resets_set toastId cs _ p He) as H1.
  pose proof (@resets_set toastId cs _ p Ha) as H2.
  pose proof (@resets_set toastId cs _ p Hs) as H3.
  simpl in H1, H2, H3.
  destruct (form (fold_left _ cs p)) as [e a s]. simpl in *.
  subst. now destruct initialConfiguration.
Qed.

Lemma onLoadEnv_frame now response p :
  api (form (onLoadEnv ProcessEnvironmentConfig now response p))
  = api (form p)
  /\ site (form (onLoadEnv ProcessEnvironmentConfig now response p))
     = site (form p).
Proof.
  unfold onLoadEnv. destruct response as [data|m d]; [|now split].
  destruct (ProcessEnvironmentConfig data); now split.
Qed.

Lemma onLoadConfig_frame now response p :
  environment
    (form (onLoadConfig versionExpectMap ProcessConfiguration now response p))
  = environment (form p).
Proof.
  unfold onLoadConfig. destruct response as [data|m d]; [|reflexivity].
  destruct (falsy (loadedVersion data)); [reflexivity|].
  destruct (falsy (versionGroup versionExpectMap _)); [reflexivity|].
  destruct (ProcessConfiguration data _); reflexivity.
Qed.

(** X15.  Resetting the environment category after an environment load,
    whether the load succeeded or not, gives the document before the load
    with the default environment; resetting the api and site categories
    after a configuration load gives the document before the load with the
    default api and site. *)
Theorem onReset_after_load
  (now : Z) (i j : jsstring) (response : PickFileResponse) p :
  form (onReset initialConfiguration i (Some Category_environment)
          (onLoadEnv ProcessEnvironmentConfig now response p))
  = {| environment := environment initialConfiguration;
       api := api (form p);
       site := site (form p) |}
  /\ form (onReset initialConfiguration j (Some Category_site)
             (onReset initialConfiguration i (Some Category_api)
                (onLoadConfig versionExpectMap ProcessConfiguration now
                   response p)))
     = {| environment := environment (form p);
          api := api initialConfiguration;
          site := site initialConfiguration |}.
Proof.
  split.
  - destruct (onLoadEnv_frame now response p) as [Ha Hs].
    simpl. now rewrite Ha, Hs.
  - simpl. now rewrite onLoadConfig_frame.
Qed.

End ResetProperties.

(* ================================================================== *)
(** ** The anchor id of a form section *)
(* ================================================================== *)

Section FormSectionProperties.
Import ConfiguratorPage.
Variable toLowerCase : jsstring -> jsstring.

Lemma replace_spaces s :
  replaceAllMatches space_at (fun _ => lit "-") s = map hyphenate s.
Proof.
  induction s as [|c s IH]; [reflexivity|].
  simpl map. unfold hyphenate at 1. destruct (isSpace c) eqn:Hc.
  - transitivity (lit "-" ++ replaceAllMatches space_at (fun _ => lit "-") s).
    + apply (@replaceAllMatches_match space_at (fun _ => lit "-") c [] s [c]).
      simpl. now rewrite Hc.
    + now rewrite IH.
  - rewrite replaceAllMatches_nomatch by (simpl; now rewrite Hc).
    now rewrite IH.
Qed.

(** X16.  The anchor id of a form section is the lower-cased title with
    each white-space character replaced by one hyphen: it has the length of
    the title's lower-case form, holds no white space, and keeps every other
    character in its place. *)
Theorem formSectionId_shape (title : jsstring) :
  let lower := toLowerCase title in
  let anchor := formSectionId toLowerCase title in
  List.length anchor = List.length lower
  /\ Forall (fun c => isSpace c = false) anchor
  /\ forall i c,
       nth_error lower i = Some c ->
       nth_error anchor i = Some (if isSpace c then 45%N else c).
Proof.
  intros lower anchor. unfold anchor, formSectionId. fold lower.
  rewrite replace_spaces. split; [apply length_map|]. split.
  - apply Forall_forall. intros c Hc.
    apply in_map_iff in Hc as (d & <- & _). unfold hyphenate.
    destruct (isSpace d) eqn:Hd; [reflexivity|exact Hd].
  - intros i c H. rewrite nth_error_map, H. reflexivity.
Qed.

End FormSectionProperties.

(* ================================================================== *)
(** ** Further properties of the site form *)
(* ================================================================== *)

Section FieldArrayProperties.
Import SiteForm.
Variable A : Type.
Implicit Types (fields : list A) (x : A).

(** X17.  [remove] at an index past the end changes nothing; at an index
    within the list it shortens the list by one, keeps the elements before
    the index in place and moves each later element one place down. *)
Theorem remove_positions fields (index : nat) :
  (List.length fields <= index -> remove fields index = fields)
  /\ (index < List.length fields ->
      S (List.length (remove fields index)) = List.length fields)
  /\ (forall j,
         nth_error (remove fields index) j
         = if Nat.ltb j index then nth_error fields j
           else nth_error fields (S j)).
Proof.
  unfold remove. split; [|split].
  - intros H. rewrite firstn_all2 by exact H.
    rewrite skipn_all2 by lia. apply app_nil_r.
  - intros H. rewrite length_app, length_firstn, length_skipn. lia.
  - revert index. induction fields as [|y fields IH]; intros index j.
    + rewrite firstn_nil, skipn_nil. simpl.
      destruct (Nat.ltb j index); now destruct j.
    + destruct index as [|index].
      * simpl. reflexivity.
      * destruct j as [|j]; [reflexivity|].
        simpl firstn. simpl skipn. simpl app. cbn [nth_error].
        rewrite IH. reflexivity.
Qed.

(** X18.  [append] leaves every element at its index, and removing an
    element that was already there gives the same list whether the new item
    is appended before or after the removal. *)
Theorem append_is_index_stable fields x :
  (forall i, i < List.length fields ->
             nth_error (append fields x) i = nth_error fields i)
  /\ (forall index, index < List.length fields ->
                    remove (append fields x) index
                    = append (remove fields index) x).
Proof.
  unfold append, remove. split.
  - intros i H. now apply nth_error_app1.
  - intros index H.
    rewrite firstn_app, skipn_app.
    replace (index - List.length fields) with 0 by lia.
    replace (S index - List.length fields) with 0 by lia.
    simpl. now rewrite app_nil_r, <- app_assoc.
Qed.

End FieldArrayProperties.

Section PreviewProperties.
Import SiteForm.

Lemma splitFirst_absent pat s : Absent pat s -> splitFirst pat s = None.
Proof.
  intros H. destruct (splitFirst pat s) as [[pre post]|] eqn:E; trivial.
  apply splitFirst_sound in E as [E _]. now apply H in E.
Qed.

(** X19.  A template that has neither "%t" nor "%s" is shown as it is,
    whatever the site name; without a template the preview reads
    "No template". *)
Theorem siteNamePreview_without_tokens (t : jsstring) (n : option jsstring) :
  (Absent (lit "%t") t -> Absent (lit "%s") t ->
   siteNamePreview (Some t) n = t)
  /\ siteNamePreview None n = lit "No template".
Proof.
  split.
  - intros Ht Hs. unfold siteNamePreview, replace. simpl nullish.
    rewrite (splitFirst_absent Ht). now rewrite (splitFirst_absent Hs).
  - reflexivity.
Qed.

End PreviewProperties.

Section FurtherExamples.
Import ConfiguratorPage SiteForm Utils Samples MoreSamples.

Lemma toUrlPath_shape_witness :
  (exists t,
      toUrlPath [ {| path := lit "a//b"; path_id := [] |};
                  {| path := lit "/c/"; path_id := [] |} ] = lit "/" ++ t)
  /\ toUrlPath [ {| path := lit "a//b"; path_id := [] |};
                 {| path := lit "/c/"; path_id := [] |} ]
     <> lit "/a//b" ++ lit "//" ++ lit "c/".
Proof.
  destruct (toUrlPath_shape [ {| path := lit "a//b"; path_id := [] |};
                              {| path := lit "/c/"; path_id := [] |} ])
    as [Hhead Hnd].
  split; [exact Hhead|apply Hnd].
Defined.

Lemma load_flag_witness :
  isLoadingEnv (onLoadEnv acceptEnv 7 (PickOk (lit "KEY=new")) page0) = false
  /\ isLoadingConfig
       (onLoadConfig table0 refuseConfig 7 (PickOk configText) page0) = false
  /\ isLoadingConfig
       (onLoadConfig table0 rejectConfig 7 (PickOk configText) page0) = true.
Proof.
  destruct (@load_flag _ _ jsstring table0 acceptEnv refuseConfig 7 page0)
    as (Henv & Hconfig & _).
  destruct (@load_flag _ _ jsstring table0 acceptEnv rejectConfig 7 page0)
    as (_ & _ & _ & Hrejected).
  split; [|split].
  - apply Henv. intros data _. discriminate.
  - apply Hconfig. intros data v group _ _ _. discriminate.
  - refine (proj1 (Hrejected configText (lit "1.2.0") (lit "v1")
                     eq_refl eq_refl _ eq_refl)).
    discriminate.
Defined.

Lemma onFormSubmit_failure_witness :
  downloads (onFormSubmit refuseGenerate 5 6 doc0 page0) = []
  /\ last (toasts (onFormSubmit refuseGenerate 5 6 doc0 page0))
       {| kind := Loading; message := []; id := []; description := None |}
     = {| kind := Error; message := lit "Failed to generate";
          id := lit "download-5"; description := Some (lit "invalid") |}.
Proof.
  destruct (@onFormSubmit_failure _ _ _ refuseGenerate 5 6 doc0 page0)
    as [Hnone Herror].
  split.
  - apply Hnone. discriminate.
  - apply (Herror _ _ eq_refl).
Defined.

Lemma onReset_each_category_witness :
  form (fold_left (fun q c => onReset initial0 (lit "1") (Some c) q)
          [Category_site; Category_environment; Category_api;
           Category_environment]
          page0)
  = initial0.
Proof.
  apply (@onReset_each_category _ _ jsstring initial0 (lit "1")
           [Category_site; Category_environment; Category_api;
            Category_environment] page0); simpl; tauto.
Defined.

Lemma formSectionId_shape_witness :
  nth_error (formSectionId asciiLower (lit "Site Configuration")) 4
  = Some 45%N
  /\ nth_error (formSectionId asciiLower (lit "Site Configuration")) 5
     = Some 99%N.
Proof.
  destruct (formSectionId_shape asciiLower (lit "Site Configuration"))
    as (_ & _ & Hnth).
  split.
  - exact (Hnth 4 32%N eq_refl).
  - exact (Hnth 5 99%N eq_refl).
Defined.

Lemma remove_positions_witness :
  remove threeLines 3 = threeLines
  /\ S (List.length (remove threeLines 1)) = 3
  /\ nth_error (remove threeLines 1) 1 = Some {| value := lit "three" |}.
Proof.
  destruct (remove_positions threeLines 3) as (Hout & _ & _).
  destruct (remove_positions threeLines 1) as (_ & Hlen & Hnth).
  split; [|split].
  - apply Hout. simpl. lia.
  - apply Hlen. simpl. lia.
  - exact (Hnth 1).
Defined.

Lemma append_is_index_stable_witness :
  nth_error (append threeLines newFooterLine) 2
  = Some {| value := lit "three" |}
  /\ remove (append threeLines newFooterLine) 0
     = append (remove threeLines 0) newFooterLine.
Proof.
  destruct (append_is_index_stable threeLines newFooterLine)
    as [Hnth Hcomm].
  split.
  - apply (Hnth 2). simpl. lia.
  - apply (Hcomm 0). simpl. lia.
Defined.

Lemma siteNamePreview_without_tokens_witness :
  siteNamePreview (Some (lit "Docs")) (Some (lit "$& and $$")) = lit "Docs".
Proof.
  destruct (siteNamePreview_without_tokens (lit "Docs")
              (Some (lit "$& and $$"))) as [H _].
  apply H; unfold Absent; apply splitFirst_none; reflexivity.
Defined.

End FurtherExamples.

(* ================================================================== *)
(** ** Further properties of the preview, detection and classification *)
(* ================================================================== *)

Section MoreProperties.
Import ConfiguratorPage SiteForm Samples.

Lemma splitFirst_first pat s pre post :
  s = pre ++ pat ++ post ->
  (forall p1 p2, s = p1 ++ pat ++ p2 -> List.length pre <= List.length p1) ->
  splitFirst pat s = Some (pre, post).
Proof.
  intros E Hleft.
  destruct (splitFirst pat s) as [[pre' post']|] eqn:H.
  - apply splitFirst_sound in H as [E' Hleft'].
    assert (Hlen : List.length pre = List.length pre').
    { apply Nat.le_antisymm; [exact (Hleft _ _ E')|exact (Hleft' _ _ E)]. }
    assert (pre = pre').
    { rewrite E in E'. exact (prefix_same_length _ _ _ _ E' Hlen). }
    subst pre'. rewrite E in E'.
    apply app_inv_head in E'. apply app_inv_head in E'. now subst.
  - exfalso. exact (@splitFirst_none pat s H pre post E).
Qed.

(** X20.  For a site name without a dollar sign, the preview is the
    template after two literal replacements, of "%t" by the site name and
    then of "%s" by the page title, where a literal replacement leaves a
    text without the pattern as it is and otherwise replaces the first
    occurrence only. *)
Theorem siteNamePreview_first_occurrences (t n : jsstring) :
  noDollar n ->
  siteNamePreview (Some t) (Some n)
  = replaceFirstLiteral (replaceFirstLiteral t (lit "%t") n) (lit "%s")
      (lit "Page Title Goes Here")
  /\ (forall s pat repl,
         (Absent pat s -> replaceFirstLiteral s pat repl = s)
         /\ (forall pre post,
                s = pre ++ pat ++ post ->
                (forall p1 p2, s = p1 ++ pat ++ p2 ->
                               List.length pre <= List.length p1) ->
                replaceFirstLiteral s pat repl = pre ++ repl ++ post)).
Proof.
  intros Hn. split.
  - unfold siteNamePreview. simpl nullish.
    rewrite (replace_literal _ _ Hn). now apply replace_literal.
  - intros s pat repl. unfold replaceFirstLiteral. split.
    + intros H. now rewrite (splitFirst_absent H).
    + intros pre post E Hleft.
      now rewrite (@splitFirst_first pat s pre post E Hleft).
Qed.

Lemma siteNamePreview_first_occurrences_witness :
  siteNamePreview (Some (lit "%t | %s | %t")) (Some (lit "Apuntes"))
  = lit "Apuntes | Page Title Goes Here | %t".
Proof.
  destruct (@siteNamePreview_first_occurrences (lit "%t | %s | %t")
              (lit "Apuntes") eq_refl) as [H _].
  rewrite H. reflexivity.
Defined.

(** X21.  A text that begins with [version:], any white space, an optional
    quote of either kind and a semantic-version literal yields that literal,
    whatever follows it, a closing quote or not, as long as it is not one
    more digit. *)
Theorem loadedVersion_at_start (ws q v rest : jsstring) :
  all isSpace ws ->
  q = [] \/ q = [DQUOTE] \/ q = [SQUOTE] ->
  SemVer v ->
  stops isDigit rest ->
  loadedVersion (lit "version:" ++ ws ++ q ++ v ++ rest) = Some v.
Proof.
  intros Hws Hq Hv Hrest.
  apply (@loadedVersion_leftmost _ v []).
  - exists ws, q, rest. repeat split; trivial.
  - intros pre' v' _. simpl. lia.
Qed.

Lemma loadedVersion_at_start_witness :
  loadedVersion (lit "version:   " ++ [SQUOTE] ++ lit "10.20.3"
                 ++ [DQUOTE] ++ lit ", next: 1")
  = Some (lit "10.20.3").
Proof.
  apply (@loadedVersion_at_start (lit "   ") [SQUOTE] (lit "10.20.3")
           ([DQUOTE] ++ lit ", next: 1")).
  - reflexivity.
  - auto.
  - exists (lit "10"), (lit "20"), (lit "3").
    repeat split; discriminate.
  - intros d rest' [= <- _]. reflexivity.
Defined.

(** X22.  Groups added at the end of the table never change how a version
    that was recognized is classified: the table is searched first, and the
    added groups only when it has no match. *)
Theorem versionGroup_app
  (entries more : list (jsstring * list jsstring)) (x : jsstring) :
  versionGroup (entries ++ more) x
  = match versionGroup entries x with
    | Some g => Some g
    | None => versionGroup more x
    end.
Proof.
  unfold versionGroup. induction entries as [|e entries IH]; simpl.
  - reflexivity.
  - destruct (includes (snd e) x); [reflexivity|exact IH].
Qed.

End MoreProperties.
